(** * Mushaf verse-marker pipeline: a shallow embedding

    The development embeds the two generator scripts of the repository,
    [generate_data.py] and [generate_verse_data.py], and proves the
    properties of their point clustering, coordinate normaliser,
    threshold calibrator and verse-highlight geometry engine.

    Numbers.  Python [int] is [Z].  Python [float] is embedded as an exact
    rational [Q]: every arithmetic operation of the scripts ([+], [-], [/],
    [abs], comparison, [min], [max], [round(_, 4)]) is taken in exact
    arithmetic, so the binary64 rounding error of each operation is not part
    of the model.  Rational results are compared with [==] ([Qeq]).

    External code.  The OpenCV calls inside [detect_ayas_template] and
    [detect_ayas_hough], and the authoritative page-to-verse mapping read
    from [page_verses.json], are parameters of the calibrator section. *)

From Stdlib Require Import ZArith QArith Qround Qabs List Bool Lia Lqa.
From Stdlib Require Import Permutation Sorted.
Import ListNotations.

Open Scope Z_scope.
Open Scope Q_scope.

(* ================================================================= *)
(** ** Python built-ins used by the scripts *)

Module Py.

(** [len(l)], a Python [int]. *)
Definition len {A : Type} (l : list A) : Z := Z.of_nat (length l).

(** [min(a, b)]: the first argument unless the second is strictly less. *)
Definition min (a b : Q) : Q := if Qlt_le_dec b a then b else a.

(** [max(a, b)]: the first argument unless the second is strictly
    greater. *)
Definition max (a b : Q) : Q := if Qlt_le_dec a b then b else a.

(** Nearest integer, ties to the even one: the rounding rule of
    [round]. *)
Definition round_half_even (q : Q) : Z :=
  let f := Qfloor q in
  match Qcompare (q - inject_Z f)%Q (1 # 2)%Q with
  | Lt => f
  | Gt => (f + 1)%Z
  | Eq => if Z.even f then f else (f + 1)%Z
  end.

(** [round(q, ndigits)] for a non-negative [ndigits]. *)
Definition round (q : Q) (ndigits : nat) : Q :=
  let scale := inject_Z (10 ^ Z.of_nat ndigits) in
  inject_Z (round_half_even (q * scale)) / scale.

(** [sorted(l, key=key)] and [l.sort(key=key)].  Python's sort is stable,
    and a list has exactly one stable ordering by a key, so any stable
    sorting algorithm returns what Python returns; this one inserts each
    element in front of the first element whose key is not smaller. *)
Fixpoint insert_by {A : Type} (key : A -> Q) (p : A) (l : list A) : list A :=
  match l with
  | [] => [p]
  | q :: l' =>
      if Qle_bool (key p) (key q) then p :: l else q :: insert_by key p l'
  end.

Definition sorted {A : Type} (key : A -> Q) (l : list A) : list A :=
  fold_right (insert_by key) [] l.

(** [enumerate(l)]. *)
Definition enumerate {A : Type} (l : list A) : list (nat * A) :=
  combine (seq 0 (length l)) l.

(** [range(start, stop, step)] for a positive [step]. *)
Definition range (start stop step : Z) : list Z :=
  map (fun k => (start + step * Z.of_nat k)%Z)
      (seq 0 (Z.to_nat ((stop - start + step - 1) / step))).

(** [l[-1]] on a non-empty list, [l[i]] on an index in range. *)
Definition last {A : Type} (l : list A) (d : A) : A := List.last l d.
Definition item {A : Type} (l : list A) (i : nat) (d : A) : A := nth i l d.

End Py.

(* ================================================================= *)
(** ** Functions shared verbatim by both scripts *)

(** A 2D point [(p[0], p[1])]: horizontal then vertical coordinate. *)
Definition point : Type := Q * Q.

(** A raw marker coordinate, in pixels: the top-left of a template match. *)
Definition pixel : Type := Z * Z.

(** One iteration of the grouping loop of [group_and_sort]: the state is
    [(groups, current_group)]. *)
Definition group_step (group_y_threshold : Q)
    (st : list (list point) * list point) (p : point)
    : list (list point) * list point :=
  let '(groups, current_group) := st in
  match current_group with
  | [] => (groups, current_group ++ [p])
  | first :: _ =>
      if Qle_bool (Qabs (snd p - snd first)) group_y_threshold
      then (groups, current_group ++ [p])
      else (groups ++ [current_group], [p])
  end.

(** The row groups in formation order, closed by the final
    [groups.append(current_group)]: the loop runs over the points sorted by
    [p[1]]. *)
Definition formed_groups (points : list point) (group_y_threshold : Q)
    : list (list point) :=
  let '(groups, current_group) :=
    fold_left (group_step group_y_threshold) (Py.sorted snd points) ([], []) in
  groups ++ [current_group].

(** The row groups after [group.sort(key=lambda p: -p[0])] on each. *)
Definition row_groups (points : list point) (group_y_threshold : Q)
    : list (list point) :=
  map (Py.sorted (fun p => - fst p)) (formed_groups points group_y_threshold).

Definition group_and_sort (points : list point) (group_y_threshold : Q)
    : list point :=
  concat (row_groups points group_y_threshold).




Definition normalize_coordinates (page : Z) (x y : Q) : Q * Q :=
  if (page <=? 2)%Z
  then (Py.round ((x + 26) / 486) 4, Py.round ((y + 26) / 738) 4)
  else (Py.round ((x + 21) / 645) 4, Py.round ((y + 21) / 1000) 4).

(** Page geometry as the comments of [normalize_coordinates] give it:
    pages 1-2 are 486x738 pixels with a 52x52 template, pages 3-604 are
    645x1000 pixels with a 42x42 template. *)
Definition page_width (page : Z) : Q := if (page <=? 2)%Z then 486 else 645.
Definition page_height (page : Z) : Q := if (page <=? 2)%Z then 738 else 1000.
Definition template_offset (page : Z) : Q := if (page <=? 2)%Z then 26 else 21.

(** Membership in the normalised range [0,1]. *)
Definition in_unit (q : Q) : Prop := 0 <= q <= 1.

(* ================================================================= *)
(** ** The verse-highlight geometry engine ([generate_verse_data.py]) *)

Definition LINE_HEIGHT : Q := 0.055.
Definition TOP_FIRST_LINE_Y : Q := LINE_HEIGHT / 2.
Definition LEFT_EDGE : Q := 0.05.
Definition RIGHT_EDGE : Q := 0.95.

(** A marker row [(surah, verse, page, x, y)] with normalised [x], [y]. *)
Definition marker_row : Type := Z * Z * Z * Q * Q.

(** A highlight row [(y_center, start_x, end_x)]. *)
Definition highlight_row : Type := Q * Q * Q.

(** A segment
    [(surah, verse, page, seg_idx, x_start, y_start, x_end, y_end)]. *)
Definition segment : Type := Z * Z * Z * nat * Q * Q * Q * Q.

(** The stepping loop shared by the two multi-line cases,

      while current_y < bound:
          rows.append((current_y, LEFT_EDGE, RIGHT_EDGE))
          current_y += LINE_HEIGHT

    run for at most [fuel] iterations; [None] when the condition still
    holds after that many. *)
Fixpoint while_rows (fuel : nat) (current_y bound : Q)
    (rows : list highlight_row) : option (list highlight_row) :=
  if Qlt_le_dec current_y bound then
    match fuel with
    | O => None
    | S fuel' =>
        while_rows fuel' (current_y + LINE_HEIGHT) bound
                   (rows ++ [(current_y, LEFT_EDGE, RIGHT_EDGE)])
    end
  else Some rows.

(** The number of iterations the loop makes from [current_y]: the least
    [n] with [current_y + n * LINE_HEIGHT >= bound]. *)
Definition loop_iterations (current_y bound : Q) : nat :=
  Z.to_nat (Qceiling ((bound - current_y) / LINE_HEIGHT)).

(** The loop run to its exit ([while_rows_exits] below shows that
    [loop_iterations] iterations always reach it). *)
Definition run_while_rows (current_y bound : Q) (rows : list highlight_row)
    : list highlight_row :=
  match while_rows (loop_iterations current_y bound) current_y bound rows with
  | Some rows' => rows'
  | None => rows
  end.

(** Case 1 of [get_verse_highlight_rows]: the first verse on its page. *)
Definition first_verse_rows (x y : Q) : list highlight_row :=
  let rows : list highlight_row := [] in
  if Qle_bool y (TOP_FIRST_LINE_Y + LINE_HEIGHT / 2)
  then rows ++ [(y, x, RIGHT_EDGE)]
  else
    let rows :=
      run_while_rows (TOP_FIRST_LINE_Y + LINE_HEIGHT / 4)
                     (y - LINE_HEIGHT / 2) rows in
    rows ++ [(y, x, RIGHT_EDGE)].

(** Cases 2 and 3: a verse whose predecessor is on the same page. *)
Definition continuing_verse_rows (x y prev_x prev_y : Q)
    : list highlight_row :=
  let rows : list highlight_row := [] in
  if Qlt_le_dec (Qabs (prev_y - y)) LINE_HEIGHT
  then rows ++ [(y, x, prev_x)]
  else
    let rows := rows ++ [(prev_y, LEFT_EDGE, prev_x)] in
    let rows :=
      run_while_rows (prev_y + LINE_HEIGHT) (y - LINE_HEIGHT / 2) rows in
    rows ++ [(y, x, RIGHT_EDGE)].

(** Never read: both indexings below are in range by the guards in front
    of them. *)
Definition no_marker : marker_row := (0%Z, 0%Z, 0%Z, 0, 0).

Definition get_verse_highlight_rows (page_data : list marker_row)
    (verse_index : Z) : list highlight_row :=
  if ((verse_index <? 0) || (verse_index >=? Py.len page_data))%Z then []
  else
    let '(surah, verse_num, page, x, y) :=
      Py.item page_data (Z.to_nat verse_index) no_marker in
    let prev_verse :=
      if (verse_index >? 0)%Z
      then Some (Py.item page_data (Z.to_nat (verse_index - 1)) no_marker)
      else None in
    match prev_verse with
    | None => first_verse_rows x y
    | Some (_, _, prev_page, prev_x, prev_y) =>
        if negb (prev_page =? page)%Z then first_verse_rows x y
        else continuing_verse_rows x y prev_x prev_y
    end.

(** [by_page] is a Python dict, read back in insertion order: an
    association list whose keys appear in order of first insertion. *)
Fixpoint by_page_append (by_page : list (Z * list marker_row)) (page : Z)
    (r : marker_row) : list (Z * list marker_row) :=
  match by_page with
  | [] => [(page, [r])]
  | (p, page_data) :: rest =>
      if (p =? page)%Z then (p, page_data ++ [r]) :: rest
      else (p, page_data) :: by_page_append rest page r
  end.

Definition group_by_page (rows : list marker_row)
    : list (Z * list marker_row) :=
  fold_left (fun by_page r =>
               let '(_, _, page, _, _) := r in by_page_append by_page page r)
            rows [].

(** The body of the innermost loop of [verse_boxes_from_app_logic]. *)
Definition row_segment (surah verse_num page : Z) (seg_idx : nat)
    (row : highlight_row) : segment :=
  let '(y_center, start_x, end_x) := row in
  let y_lo := y_center - LINE_HEIGHT / 2 in
  let y_hi := y_center + LINE_HEIGHT / 2 in
  let x_lo := Py.min start_x end_x in
  let x_hi := Py.max start_x end_x in
  (surah, verse_num, page, seg_idx,
   Py.round (Py.max 0 (Py.min 1 x_lo)) 4, Py.round (Py.max 0 (Py.min 1 y_lo)) 4,
   Py.round (Py.max 0 (Py.min 1 x_hi)) 4, Py.round (Py.max 0 (Py.min 1 y_hi)) 4).

(** The segments appended for one [verse_index] of one page. *)
Definition verse_segments (page : Z) (page_data : list marker_row)
    (verse_index : nat) : list segment :=
  let '(surah, verse_num, _page, _x, _y) :=
    Py.item page_data verse_index no_marker in
  let highlight_rows :=
    get_verse_highlight_rows page_data (Z.of_nat verse_index) in
  map (fun '(seg_idx, row) => row_segment surah verse_num page seg_idx row)
      (Py.enumerate highlight_rows).

Definition verse_boxes_from_app_logic (rows : list marker_row)
    : list segment :=
  flat_map (fun '(page, page_data) =>
              flat_map (verse_segments page page_data)
                       (seq 0 (length page_data)))
           (group_by_page rows).

(** What C8 asks of a segment: the four coordinates in [0,1], and the
    start of each axis not after its end. *)
Definition segment_in_bounds (s : segment) : Prop :=
  let '(_, _, _, _, x_start, y_start, x_end, y_end) := s in
  in_unit x_start /\ in_unit y_start /\ in_unit x_end /\ in_unit y_end /\
  x_start <= x_end /\ y_start <= y_end.

(* ================================================================= *)
(** ** The threshold calibrator (the page loop of both [main]s) *)

(** A call into one of the two detectors, as the page loop makes it. *)
Inductive detector_call : Type :=
| TemplateCall (page : Z) (threshold : Q)
| HoughCall (page : Z) (param2 : Z).

(** A computation that returns a value and the detector calls it made, in
    order. *)
Definition Det (A : Type) : Type := A * list detector_call.

Definition ret {A : Type} (a : A) : Det A := (a, []).

Definition bind {A B : Type} (m : Det A) (k : A -> Det B) : Det B :=
  let '(a, calls) := m in
  let '(b, calls') := k a in
  (b, calls ++ calls').

Notation "x <- m ;; k" := (bind m (fun x => k))
  (at level 61, m at next level, right associativity).
Notation "' pat <- m ;; k" := (bind m (fun x => match x with pat => k end))
  (at level 61, pat pattern, m at next level, right associativity).

Definition value {A : Type} (m : Det A) : A := fst m.
Definition calls {A : Type} (m : Det A) : list detector_call := snd m.

(** An entry [(page, expected_count, detected_count)] of [issues]. *)
Definition issue : Type := Z * Z * Z.

(** A row [(surah, verse, page, x, y)] of [generate_data.py]'s
    [output_rows]: [x], [y] are raw pixels there. *)
Definition raw_row : Type := Z * Z * Z * Z * Z.

Section Calibrator.

(** [detect_ayas_template(page_num, threshold, ...)] and
    [detect_ayas_hough(page_num, ..., param2=param2)] over the fixed
    images and templates, and [auth_verses[str(page)]]. *)
Variable detect_ayas_template : Z -> Q -> list pixel.
Variable detect_ayas_hough : Z -> Z -> list pixel.
Variable auth_verses : Z -> list (Z * Z).

Definition call_template (page : Z) (threshold : Q) : Det (list pixel) :=
  (detect_ayas_template page threshold, [TemplateCall page threshold]).

Definition call_hough (page : Z) (param2 : Z) : Det (list pixel) :=
  (detect_ayas_hough page param2, [HoughCall page param2]).

Definition default_thresh (page : Z) : Q :=
  if (page <=? 2)%Z then 0.4 else 0.2685.

(** [[i/1000 for i in range(200, 500, 5)]]. *)
Definition sweep_thresholds : list Q :=
  map (fun i => inject_Z i / 1000) (Py.range 200 500 5).

(** The threshold sweep over the thresholds still to try; the state is
    [(best_coords, best_diff)]. *)
Fixpoint sweep (page expected_count : Z) (thresholds : list Q)
    (best : list pixel * Z) : Det (list pixel * Z) :=
  match thresholds with
  | [] => ret best
  | t :: thresholds' =>
      c <- call_template page t ;;
      let d := Z.abs (Py.len c - expected_count) in
      if (d <? snd best)%Z then
        if (d =? 0)%Z then ret (c, d)
        else sweep page expected_count thresholds' (c, d)
      else sweep page expected_count thresholds' best
  end.

(** The Hough fallback loop over the [param2] values still to try. *)
Fixpoint hough_fallback (page expected_count : Z) (param2s : list Z)
    (best : list pixel * Z) : Det (list pixel * Z) :=
  match param2s with
  | [] => ret best
  | p2 :: param2s' =>
      hcoords <- call_hough page p2 ;;
      if (Py.len hcoords =? expected_count)%Z then ret (hcoords, 0%Z)
      else hough_fallback page expected_count param2s' best
  end.

(* --------------------------------------------------------------- *)
(** *** [generate_data.py]: [main] *)

(** [for (surah, verse), (x, y) in zip(expected_verses, coords):
       output_rows.append((surah, verse, page, x, y))]. *)
Definition zip_rows (page : Z) (expected_verses : list (Z * Z))
    (coords : list pixel) : list raw_row :=
  map (fun '((surah, verse), (x, y)) => (surah, verse, page, x, y))
      (combine expected_verses coords).

(** The rows of the issue branch: [best_coords[i]] while [i] is in
    range, then [best_coords[-1]], or [0, 0] on an empty list. *)
Definition placeholder_rows (page : Z) (expected_verses : list (Z * Z))
    (best_coords : list pixel) : list raw_row :=
  map (fun '(i, (surah, verse)) =>
         let '(x, y) :=
           if (i <? length best_coords)%nat
           then Py.item best_coords i (0%Z, 0%Z)
           else
             match best_coords with
             | _ :: _ => Py.last best_coords (0%Z, 0%Z)
             | [] => (0%Z, 0%Z)
             end in
         (surah, verse, page, x, y))
      (Py.enumerate expected_verses).

(** One iteration of the page loop: the rows appended to [output_rows]
    and the entries appended to [issues]. *)
Definition generate_data_page (page : Z) : Det (list raw_row * list issue) :=
  let expected_verses := auth_verses page in
  let expected_count := Py.len expected_verses in
  coords <- call_template page (default_thresh page) ;;
  if (Py.len coords =? expected_count)%Z then
    ret (zip_rows page expected_verses coords, [])
  else
    '(best_coords, best_diff) <-
      sweep page expected_count sweep_thresholds
            (coords, Z.abs (Py.len coords - expected_count)) ;;
    if (best_diff =? 0)%Z then
      ret (zip_rows page expected_verses best_coords, [])
    else
      '(best_coords, best_diff) <-
        hough_fallback page expected_count [30; 28; 25]%Z
                       (best_coords, best_diff) ;;
      if (best_diff =? 0)%Z then
        ret (zip_rows page expected_verses best_coords, [])
      else
        ret (placeholder_rows page expected_verses best_coords,
             [(page, expected_count, Py.len best_coords)]).

(** The page loop over [range(1, 605)], with [output_rows] and [issues]
    as accumulators. *)
Definition page_loop {R : Type} (body : Z -> Det (list R * list issue))
    (pages : list Z) : Det (list R * list issue) :=
  fold_left (fun acc page =>
               '(output_rows, issues) <- acc ;;
               '(rows, new_issues) <- body page ;;
               ret (output_rows ++ rows, issues ++ new_issues))
            pages (ret ([], [])).

Definition generate_data_main : Det (list raw_row * list issue) :=
  page_loop generate_data_page (Py.range 1 605 1).

(** The rows written to [data.csv]: each of [output_rows], normalised. *)
Definition data_csv (output_rows : list raw_row) : list marker_row :=
  map (fun '(surah, verse, page, raw_x, raw_y) =>
         let '(nx, ny) :=
           normalize_coordinates page (inject_Z raw_x) (inject_Z raw_y) in
         (surah, verse, page, nx, ny))
      output_rows.

(* --------------------------------------------------------------- *)
(** *** [generate_verse_data.py]: [main], without [--from-csv] *)

(** The calibration block guarded by [len(coords) != expected_count]:
    the final [coords] and the entries appended to [issues]. *)
Definition calibrate (page expected_count : Z) (coords : list pixel)
    : Det (list pixel * list issue) :=
  if negb (Py.len coords =? expected_count)%Z then
    '(best_coords, best_diff) <-
      sweep page expected_count sweep_thresholds
            (coords, Z.abs (Py.len coords - expected_count)) ;;
    '(best_coords, best_diff) <-
      (if negb (best_diff =? 0)%Z
       then hough_fallback page expected_count [30; 28; 25]%Z
                           (best_coords, best_diff)
       else ret (best_coords, best_diff)) ;;
    let coords := best_coords in
    ret (coords,
         if negb (best_diff =? 0)%Z
         then [(page, expected_count, Py.len coords)] else [])
  else ret (coords, []).

(** [for (surah, verse), (raw_x, raw_y) in zip(expected_verses, coords)],
    normalising each. *)
Definition normalized_rows (page : Z) (expected_verses : list (Z * Z))
    (coords : list pixel) : list marker_row :=
  map (fun '((surah, verse), (raw_x, raw_y)) =>
         let '(nx, ny) :=
           normalize_coordinates page (inject_Z raw_x) (inject_Z raw_y) in
         (surah, verse, page, nx, ny))
      (combine expected_verses coords).

(** [for k in range(len(coords), expected_count)], each with
    [0.0, 0.0]. *)
Definition padding_rows (page : Z) (expected_verses : list (Z * Z))
    (coords : list pixel) : list marker_row :=
  map (fun k =>
         let '(surah, verse) := Py.item expected_verses k (0%Z, 0%Z) in
         (surah, verse, page, 0, 0))
      (seq (length coords) (length expected_verses - length coords)).

Definition generate_verse_data_page (page : Z)
    : Det (list marker_row * list issue) :=
  let expected_verses := auth_verses page in
  let expected_count := Py.len expected_verses in
  coords <- call_template page (default_thresh page) ;;
  '(coords, new_issues) <- calibrate page expected_count coords ;;
  ret (normalized_rows page expected_verses coords
         ++ padding_rows page expected_verses coords,
       new_issues).

Definition generate_verse_data_main : Det (list marker_row * list issue) :=
  page_loop generate_verse_data_page (Py.range 1 605 1).

(* --------------------------------------------------------------- *)
(** *** What both page loops share *)

(** [(best_coords, best_diff)] when the threshold sweep of a page whose
    default detection missed the expected count is over. *)
Definition best_after_sweep (page : Z) : list pixel * Z :=
  let expected_count := Py.len (auth_verses page) in
  let coords := detect_ayas_template page (default_thresh page) in
  value (sweep page expected_count sweep_thresholds
               (coords, Z.abs (Py.len coords - expected_count))).

(** Calibration fails on a page: none of the detector runs the page loop
    can make returns the expected number of markers. *)
Definition never_exact (page : Z) : Prop :=
  (forall t, In t (default_thresh page :: sweep_thresholds) ->
             Py.len (detect_ayas_template page t) <> Py.len (auth_verses page)) /\
  (forall p2, In p2 [30; 28; 25]%Z ->
              Py.len (detect_ayas_hough page p2) <> Py.len (auth_verses page)).


(** [(best_coords, best_diff)] when the calibration of a page is over: the
    default run if it is exact, else the best of the sweep if that is
    exact, else what the Hough fallback leaves. *)
Definition calibrated (page : Z) : list pixel * Z :=
  let expected_count := Py.len (auth_verses page) in
  let coords := detect_ayas_template page (default_thresh page) in
  if (Py.len coords =? expected_count)%Z then (coords, 0%Z)
  else
    let best := best_after_sweep page in
    if (snd best =? 0)%Z then best
    else value (hough_fallback page expected_count [30; 28; 25]%Z best).

(** What a logged detector call returned. *)
Definition call_result (c : detector_call) : list pixel :=
  match c with
  | TemplateCall page threshold => detect_ayas_template page threshold
  | HoughCall page param2 => detect_ayas_hough page param2
  end.

(** The verse identities [(surah, verse, page)] a page is expected to
    contribute, in order. *)
Definition page_identities (page : Z) : list (Z * Z * Z) :=
  map (fun '(surah, verse) => (surah, verse, page)) (auth_verses page).

End Calibrator.

(** The page and the coordinate of a row of either dataset, and the rows
    of one page within a list of rows. *)
Definition row_page {X : Type} (r : Z * Z * Z * X * X) : Z :=
  let '(_, _, page, _, _) := r in page.

Definition row_xy {X : Type} (r : Z * Z * Z * X * X) : X * X :=
  let '(_, _, _, x, y) := r in (x, y).

Definition rows_of_page {X : Type} (page : Z) (rows : list (Z * Z * Z * X * X))
    : list (Z * Z * Z * X * X) :=
  filter (fun r => (row_page r =? page)%Z) rows.

(** The loop invariant of the calibrator: [best_diff] is the distance of
    [len(best_coords)] from the expected count. *)
Definition tracks (expected_count : Z) (best : list pixel * Z) : Prop :=
  snd best = Z.abs (Py.len (fst best) - expected_count).

(** Sample inputs for the calibrator: a mapping with two verses on every
    page, and detectors that reach the expected count at the default
    threshold, only inside the sweep, only through the Hough fallback, or
    never. *)
Definition two_verses (page : Z) : list (Z * Z) := [(2, 1); (2, 2)]%Z.

Definition two_markers : list pixel := [(300, 200); (100, 200)]%Z.

Definition template_exact (page : Z) (threshold : Q) : list pixel :=
  two_markers.

Definition template_low_threshold (page : Z) (threshold : Q) : list pixel :=
  if Qle_bool threshold 0.25 then two_markers else [(100, 200)]%Z.

Definition template_one_marker (page : Z) (threshold : Q) : list pixel :=
  [(100, 200)]%Z.

Definition template_none (page : Z) (threshold : Q) : list pixel := [].

Definition hough_none (page param2 : Z) : list pixel := [].

Definition hough_at_28 (page param2 : Z) : list pixel :=
  if (param2 =? 28)%Z then two_markers else [].

(* ================================================================= *)
(** ** Vocabulary for further properties of the geometry engine *)

(** Two highlight rows with equal numbers. *)
Definition row_eq (r r' : highlight_row) : Prop :=
  let '(y_center, start_x, end_x) := r in
  let '(y_center', start_x', end_x') := r' in
  y_center == y_center' /\ start_x == start_x' /\ end_x == end_x'.


Definition y_center (r : highlight_row) : Q := fst (fst r).


(** The identity and index [(surah, verse, page, seg_idx)] of a
    segment. *)
Definition segment_key (s : segment) : Z * Z * Z * nat :=
  let '(surah, verse_num, page, seg_idx, _, _, _, _) := s in
  (surah, verse_num, page, seg_idx).

(** [by_page] holds the rows read so far, page by page: its keys are
    distinct, the list under a key is the rows of that page in input
    order (and is not empty), and every row read has its page among the
    keys. *)
Definition grouped (rows : list marker_row)
    (by_page : list (Z * list marker_row)) : Prop :=
  NoDup (map fst by_page) /\
  Forall (fun entry => snd entry = rows_of_page (fst entry) rows /\
                       snd entry <> [])
         by_page /\
  Forall (fun r => In (row_page r) (map fst by_page)) rows.


(** The verse identity [(surah, verse, page)] of a row of either
    dataset. *)
Definition row_identity {X : Type} (r : Z * Z * Z * X * X) : Z * Z * Z :=
  let '(surah, verse, page, _, _) := r in (surah, verse, page).


(** The page of an entry of [issues]. *)
Definition issue_page (i : issue) : Z := fst (fst i).




(* ================================================================= *)
(** ** Inside [detect_ayas_template], after OpenCV has answered *)

(** [np.sqrt(n) >= m] for integers [n >= 0] and [m]: the square root of
    [n] is at least [m] when [m] is not positive or [m * m <= n].  The
    correctly rounded square root of NumPy decides the same for the
    magnitudes of pixel coordinates. *)
Definition sqrt_ge (n m : Z) : bool := ((m <=? 0) || (m * m <=? n))%Z.

(** [np.sqrt((l1[0]-l2[0])**2 + (l1[1]-l2[1])**2) >= min_dist]. *)
Definition far_apart (min_dist : Z) (l1 l2 : pixel) : bool :=
  sqrt_ge ((fst l1 - fst l2) ^ 2 + (snd l1 - snd l2) ^ 2) min_dist.

(** The suppression loop: a location is appended to [distinct] when it is
    far from every location kept so far ([all] of an empty list is
    true). *)
Definition keep_distinct (min_dist : Z) (locations : list pixel)
    : list pixel :=
  fold_left (fun distinct l1 =>
               if forallb (far_apart min_dist l1) distinct
               then distinct ++ [l1] else distinct)
            locations [].

Definition pixel_point (l : pixel) : point :=
  (inject_Z (fst l), inject_Z (snd l)).

(** [detect_ayas_template] from its template shape [(th, tw)] and the
    answer of OpenCV: [None] when the page image could not be read, else
    the locations [(x, y)] whose score reaches the threshold, in the order
    of [np.where].  The markers are returned as the points
    [group_and_sort] works on; their coordinates are whole numbers. *)
Definition detect_ayas_template_from (th tw : Z)
    (locations : option (list pixel)) : list point :=
  match locations with
  | None => []
  | Some locations =>
      let min_dist := Z.max th tw in
      let distinct := keep_distinct min_dist locations in
      group_and_sort (map pixel_point distinct) (inject_Z th / 2)
  end.

(** Kept locations, each far from all the ones before it. *)
Definition pairwise_far (min_dist : Z) (distinct : list pixel) : Prop :=
  ForallOrdPairs (fun earlier later => far_apart min_dist later earlier = true)
                 distinct.


(** The square of the distance between two points. *)
Definition squared_distance (p q : point) : Q :=
  (fst p - fst q) * (fst p - fst q) + (snd p - snd q) * (snd p - snd q).

(* ================================================================= *)
(** ** [fetch_page_verses.py] *)

(** A verse identity [(surah, verse)]. *)
Definition verse : Type := (Z * Z)%type.

(** Standard Hafs verse counts. *)
Definition SURAH_VERSE_COUNTS : list Z :=
  [7; 286; 200; 176; 120; 165; 206; 75; 129; 109;
   123; 111; 43; 52; 99; 128; 111; 110; 98; 135;
   112; 78; 118; 64; 77; 227; 93; 88; 69; 60;
   34; 30; 73; 54; 45; 83; 182; 88; 75; 85;
   54; 53; 89; 59; 37; 35; 38; 29; 18; 45;
   60; 49; 62; 55; 78; 96; 29; 22; 24; 13;
   14; 11; 11; 18; 12; 12; 30; 52; 52; 44;
   28; 28; 20; 56; 40; 31; 50; 40; 46; 42;
   29; 19; 36; 25; 22; 17; 19; 26; 30; 20;
   15; 21; 11; 8; 8; 19; 5; 8; 8; 11;
   11; 8; 3; 9; 5; 4; 7; 3; 6; 3;
   5; 4; 5; 6]%Z.

(** [l[i]] for a Python [int] index: indices from [-len(l)] to
    [len(l) - 1], the negative ones counting from the end; [None] is
    [IndexError]. *)
Definition list_item {A : Type} (l : list A) (i : Z) : option A :=
  if (0 <=? i)%Z then nth_error l (Z.to_nat i)
  else if (- Py.len l <=? i)%Z then nth_error l (Z.to_nat (Py.len l + i))
  else None.

(** The [verseRange] of a line, ["s_surah:s_verse-e_surah:e_verse"], once
    split and converted by [int]. *)
Definition verse_range : Type := (Z * Z * Z * Z)%type.

(** The verses one line appends to [verses]; [None] when the lookup in
    [SURAH_VERSE_COUNTS] raises. *)
Definition line_verses (vr : verse_range) : option (list verse) :=
  let '(s_surah, s_verse, e_surah, e_verse) := vr in
  if (s_surah =? e_surah)%Z then
    Some (map (pair s_surah) (Py.range s_verse (e_verse + 1) 1))
  else
    match list_item SURAH_VERSE_COUNTS (s_surah - 1) with
    | None => None
    | Some count =>
        Some (map (pair s_surah) (Py.range s_verse (count + 1) 1)
              ++ map (pair e_surah) (Py.range 1 (e_verse + 1) 1))
    end.

(** The loop over the lines of a page.  A line is [None] when it has no
    [verseRange] or an empty one: it is skipped.  An exception leaves the
    loop, and the page has no result. *)
Fixpoint collect_verses (lines : list (option verse_range))
    (verses : list verse) : option (list verse) :=
  match lines with
  | [] => Some verses
  | None :: lines => collect_verses lines verses
  | Some vr :: lines =>
      match line_verses vr with
      | None => None
      | Some added => collect_verses lines (verses ++ added)
      end
  end.

Definition verse_eqb (v w : verse) : bool :=
  ((fst v =? fst w) && (snd v =? snd w))%Z.

(** One iteration of the deduplication loop on [(seen, unique)]; the set
    [seen] is kept as the list of its elements. *)
Definition dedup_step (st : list verse * list verse) (v : verse)
    : list verse * list verse :=
  let '(seen, unique) := st in
  if existsb (verse_eqb v) seen then (seen, unique)
  else (v :: seen, unique ++ [v]).

Definition deduplicate (verses : list verse) : list verse :=
  snd (fold_left dedup_step verses ([], [])).

(** The first occurrences in [verses] of the verses not in [seen]: what
    the deduplication loop appends to [unique]. *)
Fixpoint first_occurrences (seen verses : list verse) : list verse :=
  match verses with
  | [] => []
  | v :: verses =>
      if existsb (verse_eqb v) seen then first_occurrences seen verses
      else v :: first_occurrences (v :: seen) verses
  end.

(** The body of the [try] for one page: [data] is [None] when the download
    or the parsing of the page raised, else the lines of the page. *)
Definition fetch_page (data : option (list (option verse_range)))
    : option (list verse) :=
  match data with
  | None => None
  | Some lines => option_map deduplicate (collect_verses lines [])
  end.

(** [d[k] = v] on a dict, kept as its items in insertion order. *)
Fixpoint dict_set {V : Type} (d : list (Z * V)) (k : Z) (v : V)
    : list (Z * V) :=
  match d with
  | [] => [(k, v)]
  | (k', v') :: d' =>
      if (k' =? k)%Z then (k, v) :: d' else (k', v') :: dict_set d' k v
  end.

(** Reading order of verses. *)
Definition verse_le (v w : verse) : Prop :=
  (fst v < fst w \/ (fst v = fst w /\ snd v <= snd w))%Z.

Definition verse_lt (v w : verse) : Prop :=
  (fst v < fst w \/ (fst v = fst w /\ snd v < snd w))%Z.

(** What [main] ends with: [sys.exit(1)] after the error report, or the
    saved mapping with the total and whether the warning was printed. *)
Inductive fetch_outcome : Type :=
| Exit (errors : list Z)
| Saved (page_verses : list (Z * list verse)) (total : Z) (warning : bool).

Section Fetch.

(** The lines of the downloaded page, [None] when the download or the
    parsing raised. *)
Variable download : Z -> option (list (option verse_range)).

(** One iteration of the loop over the pages, on
    [(page_verses, errors)]; an error is recorded by its page, without
    the message. *)
Definition fetch_step (st : list (Z * list verse) * list Z) (page : Z)
    : list (Z * list verse) * list Z :=
  let '(page_verses, errors) := st in
  match fetch_page (download page) with
  | Some unique => (dict_set page_verses page unique, errors)
  | None => (page_verses, errors ++ [page])
  end.

Definition fetch_main : fetch_outcome :=
  let '(page_verses, errors) :=
    fold_left fetch_step (Py.range 1 605 1) ([], []) in
  match errors with
  | _ :: _ => Exit errors
  | [] =>
      let total :=
        fold_right Z.add 0%Z (map (fun kv => Py.len (snd kv)) page_verses) in
      Saved page_verses total (negb (total =? 6236)%Z)
  end.

End Fetch.

(* ================================================================= *)
(** * Properties *)

(** ** Rounding, [min] and [max] *)

Lemma round_half_even_bounds (q : Q) :
  (Qfloor q <= Py.round_half_even q <= Qfloor q + 1)%Z.
Proof.
  unfold Py.round_half_even.
  destruct (Qcompare _ _); try destruct (Z.even _); lia.
Qed.

Lemma round_half_even_mono (p q : Q) :
  p <= q -> (Py.round_half_even p <= Py.round_half_even q)%Z.
Proof.
  intros Hpq.
  pose proof (Qfloor_resp_le _ _ Hpq) as Hfl.
  destruct (Z.eq_dec (Qfloor p) (Qfloor q)) as [Heq | Hne].
  - unfold Py.round_half_even. rewrite <- Heq.
    destruct (Qcompare_spec (p - inject_Z (Qfloor p)) (1 # 2)) as [Hp | Hp | Hp];
      destruct (Qcompare_spec (q - inject_Z (Qfloor p)) (1 # 2)) as [Hq | Hq | Hq];
      try destruct (Z.even (Qfloor p)); try lia; exfalso; lra.
  - pose proof (round_half_even_bounds p). pose proof (round_half_even_bounds q).
    lia.
Qed.

Lemma round_half_even_inject_Z (z : Z) : Py.round_half_even (inject_Z z) = z.
Proof.
  unfold Py.round_half_even. rewrite Qfloor_Z.
  destruct (Qcompare_spec (inject_Z z - inject_Z z) (1 # 2)) as [H | H | H];
    try reflexivity; exfalso; lra.
Qed.

Lemma round_mono (p q : Q) (ndigits : nat) :
  p <= q -> Py.round p ndigits <= Py.round q ndigits.
Proof.
  intros Hpq. unfold Py.round.
  assert (Hs : 0 < inject_Z (10 ^ Z.of_nat ndigits)).
  { change 0 with (inject_Z 0). rewrite <- Zlt_Qlt. apply Z.pow_pos_nonneg; lia. }
  set (s := inject_Z (10 ^ Z.of_nat ndigits)) in *.
  apply Qle_shift_div_l; [exact Hs |].
  unfold Qdiv. rewrite <- Qmult_assoc, (Qmult_comm (/ s)), Qmult_inv_r, Qmult_1_r
    by (intros E; rewrite E in Hs; now apply Qlt_irrefl in Hs).
  rewrite <- Zle_Qle. apply round_half_even_mono.
  apply Qmult_le_compat_r; [exact Hpq | now apply Qlt_le_weak].
Qed.

Lemma round4_0 : Py.round 0 4 == 0.
Proof. reflexivity. Qed.

Lemma round4_1 : Py.round 1 4 == 1.
Proof. reflexivity. Qed.

Lemma round4_unit (q : Q) : 0 <= q <= 1 -> 0 <= Py.round q 4 <= 1.
Proof.
  intros [H0 H1]. split.
  - rewrite <- round4_0. now apply round_mono.
  - rewrite <- round4_1. now apply round_mono.
Qed.

Lemma min_le_max (a b : Q) : Py.min a b <= Py.max a b.
Proof.
  unfold Py.min, Py.max.
  destruct (Qlt_le_dec b a), (Qlt_le_dec a b); lra.
Qed.

(** [max(0, min(1, v))] lies in the unit interval and is monotone in
    [v]. *)
Lemma clamp_unit (v : Q) : 0 <= Py.max 0 (Py.min 1 v) <= 1.
Proof.
  unfold Py.min, Py.max.
  destruct (Qlt_le_dec v 1); [destruct (Qlt_le_dec 0 v) | destruct (Qlt_le_dec 0 1)]; lra.
Qed.

Lemma clamp_mono (u v : Q) :
  u <= v -> Py.max 0 (Py.min 1 u) <= Py.max 0 (Py.min 1 v).
Proof.
  intros Huv. unfold Py.min, Py.max.
  destruct (Qlt_le_dec u 1), (Qlt_le_dec v 1);
    repeat match goal with |- context [Qlt_le_dec ?a ?b] => destruct (Qlt_le_dec a b) end;
    lra.
Qed.

(* ================================================================= *)
(** ** Coordinate normaliser *)

Lemma round4_div_unit (v w : Q) :
  0 < w -> 0 <= v <= w -> in_unit (Py.round (v / w) 4).
Proof.
  intros Hw [H0 H1]. apply round4_unit. split.
  - apply Qle_shift_div_l; [exact Hw | lra].
  - apply Qle_shift_div_r; [exact Hw | lra].
Qed.

(** On either page class, a raw coordinate whose template centre lies on
    the page normalises into the unit square. *)
Lemma normalize_coordinates_unit (page : Z) (x y : Q) :
  0 <= x + template_offset page <= page_width page ->
  0 <= y + template_offset page <= page_height page ->
  in_unit (fst (normalize_coordinates page x y)) /\
  in_unit (snd (normalize_coordinates page x y)).
Proof.
  unfold normalize_coordinates, page_width, page_height, template_offset.
  destruct (page <=? 2)%Z; intros Hx Hy; cbn [fst snd];
    split; apply round4_div_unit; (reflexivity || assumption).
Qed.

(** C5, as stated, fails: on standard page 3 the raw coordinate (640, 0)
    is inside the 645x1000 pixel bounds and normalises to x = 1.0248. *)
Lemma C5_counterexample :
  ~ (forall (page x y : Z),
        (2 < page)%Z -> (0 <= x < 645)%Z -> (0 <= y < 1000)%Z ->
        in_unit (fst (normalize_coordinates page (inject_Z x) (inject_Z y))) /\
        in_unit (snd (normalize_coordinates page (inject_Z x) (inject_Z y)))).
Proof.
  intros H.
  destruct (H 3%Z 640%Z 0%Z) as [[_ Hx] _]; try lia.
  vm_compute in Hx. now apply Hx.
Qed.

(** C5 (amended): on a standard-class page (page > 2) the raw coordinate
    (0, 0) normalises to exactly (0.0326, 0.0210), and every raw coordinate
    whose template centre (x + 21, y + 21) lies within the 645x1000 pixel
    bounds normalises into [0,1] x [0,1]. *)
Theorem C5_normalize_standard (page : Z) (x y : Q) :
  (2 < page)%Z ->
  0 <= x + 21 <= 645 ->
  0 <= y + 21 <= 1000 ->
  normalize_coordinates page 0 0 = (0.0326, 0.0210) /\
  in_unit (fst (normalize_coordinates page x y)) /\
  in_unit (snd (normalize_coordinates page x y)).
Proof.
  intros Hpage Hx Hy. split.
  - unfold normalize_coordinates.
    destruct (Z.leb_spec page 2); [lia | reflexivity].
  - apply normalize_coordinates_unit;
      unfold template_offset, page_width, page_height;
      destruct (Z.leb_spec page 2); (lia || assumption).
Qed.

Lemma C5_normalize_standard_witness :
  normalize_coordinates 3 0 0 = (0.0326, 0.0210) /\
  in_unit (fst (normalize_coordinates 3 603 958)) /\
  in_unit (snd (normalize_coordinates 3 603 958)).
Proof.
  apply (C5_normalize_standard 3 603 958).
  - reflexivity.
  - unfold Qle; simpl; lia.
  - unfold Qle; simpl; lia.
Defined.

(* ================================================================= *)
(** ** The stepping loops of the geometry engine *)

Lemma LINE_HEIGHT_pos : 0 < LINE_HEIGHT.
Proof. reflexivity. Qed.

(** One more iteration is needed exactly while the condition holds. *)
Lemma loop_iterations_pos (current_y bound : Q) :
  current_y < bound -> (0 < loop_iterations current_y bound)%nat.
Proof.
  intros Hlt. unfold loop_iterations.
  assert (Hq : 0 < (bound - current_y) / LINE_HEIGHT).
  { apply Qlt_shift_div_l; [exact LINE_HEIGHT_pos | lra]. }
  pose proof (Qle_ceiling ((bound - current_y) / LINE_HEIGHT)) as Hc.
  assert (Hz : (0 < Qceiling ((bound - current_y) / LINE_HEIGHT))%Z).
  { rewrite Zlt_Qlt. change (inject_Z 0) with 0. lra. }
  lia.
Qed.

(** A step of [LINE_HEIGHT] uses up one of the iterations. *)
Lemma loop_iterations_step (current_y bound : Q) :
  (loop_iterations (current_y + LINE_HEIGHT) bound
   <= loop_iterations current_y bound - 1)%nat.
Proof.
  unfold loop_iterations.
  set (q := (bound - current_y) / LINE_HEIGHT).
  assert (Hq : (bound - (current_y + LINE_HEIGHT)) / LINE_HEIGHT == q - 1).
  { unfold q. field. intros E. discriminate E. }
  rewrite (Qceiling_comp _ _ Hq).
  assert (Hle : (Qceiling (q - 1) <= Qceiling q - 1)%Z).
  { rewrite <- (Qceiling_Z (Qceiling q - 1)).
    apply Qceiling_resp_le.
    pose proof (Qle_ceiling q) as Hc.
    unfold Z.sub. rewrite inject_Z_plus, inject_Z_opp.
    change (inject_Z 1) with 1. clearbody q. lra. }
  lia.
Qed.

(** The loop leaves by its own condition within [loop_iterations]
    iterations: fuel never runs out. *)
Lemma while_rows_exits (fuel : nat) :
  forall (current_y bound : Q) (rows : list highlight_row),
    (loop_iterations current_y bound <= fuel)%nat ->
    exists rows', while_rows fuel current_y bound rows = Some rows'.
Proof.
  induction fuel as [| fuel IH]; intros current_y bound rows Hfuel; simpl.
  - destruct (Qlt_le_dec current_y bound) as [Hlt | Hge].
    + pose proof (loop_iterations_pos _ _ Hlt). lia.
    + now exists rows.
  - destruct (Qlt_le_dec current_y bound) as [Hlt | Hge].
    + apply IH. pose proof (loop_iterations_step current_y bound). lia.
    + now exists rows.
Qed.

(** Iterations beyond the exit change nothing. *)
Lemma while_rows_more_fuel (fuel extra : nat) :
  forall (current_y bound : Q) (rows rows' : list highlight_row),
    while_rows fuel current_y bound rows = Some rows' ->
    while_rows (fuel + extra) current_y bound rows = Some rows'.
Proof.
  induction fuel as [| fuel IH]; intros current_y bound rows rows'; simpl.
  - destruct extra; simpl; destruct (Qlt_le_dec current_y bound);
      intros H; congruence.
  - destruct (Qlt_le_dec current_y bound); [apply IH | trivial].
Qed.

Lemma while_rows_run (current_y bound : Q) (rows : list highlight_row)
    (extra : nat) :
  while_rows (loop_iterations current_y bound + extra) current_y bound rows
  = Some (run_while_rows current_y bound rows).
Proof.
  apply while_rows_more_fuel. unfold run_while_rows.
  destruct (while_rows_exits (loop_iterations current_y bound)
              current_y bound rows (le_n _)) as [rows' Hrows'].
  now rewrite Hrows'.
Qed.

(** The two unfolding equations of the loop. *)
Lemma run_while_rows_step (current_y bound : Q) (rows : list highlight_row) :
  current_y < bound ->
  run_while_rows current_y bound rows
  = run_while_rows (current_y + LINE_HEIGHT) bound
                   (rows ++ [(current_y, LEFT_EDGE, RIGHT_EDGE)]).
Proof.
  intros Hlt.
  pose proof (while_rows_run current_y bound rows 0) as Hrun.
  rewrite Nat.add_0_r in Hrun.
  pose proof (loop_iterations_pos _ _ Hlt) as Hpos.
  pose proof (loop_iterations_step current_y bound) as Hstep.
  destruct (loop_iterations current_y bound) as [| n]; [lia |].
  simpl in Hrun. destruct (Qlt_le_dec current_y bound) as [_ | Hge]; [| lra].
  replace n with (loop_iterations (current_y + LINE_HEIGHT) bound
                  + (n - loop_iterations (current_y + LINE_HEIGHT) bound))%nat
    in Hrun by lia.
  rewrite while_rows_run in Hrun. congruence.
Qed.

Lemma run_while_rows_done (current_y bound : Q) (rows : list highlight_row) :
  bound <= current_y -> run_while_rows current_y bound rows = rows.
Proof.
  intros Hge.
  pose proof (while_rows_run current_y bound rows 0) as Hrun.
  destruct (loop_iterations current_y bound + 0)%nat; simpl in Hrun;
    destruct (Qlt_le_dec current_y bound); (lra || congruence).
Qed.

(** The loop only appends: the rows it was given stay in front. *)
Lemma while_rows_app (fuel : nat) :
  forall (current_y bound : Q) (rows : list highlight_row),
    while_rows fuel current_y bound rows
    = option_map (app rows) (while_rows fuel current_y bound []).
Proof.
  induction fuel as [| fuel IH]; intros current_y bound rows; simpl;
    destruct (Qlt_le_dec current_y bound); simpl;
    try (now rewrite app_nil_r); try reflexivity.
  rewrite (IH _ _ (rows ++ _)), (IH _ _ [_]).
  destruct (while_rows fuel (current_y + LINE_HEIGHT) bound []); simpl;
    [now rewrite <- app_assoc | reflexivity].
Qed.

Lemma run_while_rows_app (current_y bound : Q) (rows : list highlight_row) :
  run_while_rows current_y bound rows
  = rows ++ run_while_rows current_y bound [].
Proof.
  pose proof (while_rows_run current_y bound rows 0) as Hrun.
  rewrite while_rows_app, while_rows_run in Hrun. simpl in Hrun. congruence.
Qed.


(* ================================================================= *)
(** ** The three cases of [get_verse_highlight_rows] *)


Lemma get_verse_highlight_rows_first (page_data : list marker_row)
    (surah verse_num page : Z) (x y : Q) :
  Py.item page_data 0 no_marker = (surah, verse_num, page, x, y) ->
  (0 < Py.len page_data)%Z ->
  get_verse_highlight_rows page_data 0 = first_verse_rows x y.
Proof.
  intros Hitem Hlen. unfold get_verse_highlight_rows.
  destruct (Z.geb_spec 0 (Py.len page_data)); [lia |].
  cbn [Z.ltb Z.compare orb Z.to_nat Z.gtb]. now rewrite Hitem.
Qed.

Lemma get_verse_highlight_rows_continuing (page_data : list marker_row)
    (verse_index : Z) (surah verse_num prev_surah prev_verse_num page : Z)
    (x y prev_x prev_y : Q) :
  (0 < verse_index < Py.len page_data)%Z ->
  Py.item page_data (Z.to_nat verse_index) no_marker
    = (surah, verse_num, page, x, y) ->
  Py.item page_data (Z.to_nat (verse_index - 1)) no_marker
    = (prev_surah, prev_verse_num, page, prev_x, prev_y) ->
  get_verse_highlight_rows page_data verse_index
  = continuing_verse_rows x y prev_x prev_y.
Proof.
  intros Hrange Hitem Hprev. unfold get_verse_highlight_rows.
  destruct (Z.ltb_spec verse_index 0); [lia |].
  destruct (Z.geb_spec verse_index (Py.len page_data)); [lia |].
  cbn [orb]. rewrite Hitem.
  destruct (Z.gtb_spec verse_index 0); [| lia].
  rewrite Hprev, Z.eqb_refl. reflexivity.
Qed.





(* ================================================================= *)
(** ** Worked cases of the geometry engine *)

(** C2, as stated, fails: with the previous marker at (0.7, 0.3) and the
    current one at (0.2, 0.41) the engine returns three rows, not two: the
    cursor starts at 0.3 + 0.055 = 0.355, which is below the bound
    0.41 - 0.0275 = 0.3825, so one full-width row is emitted. *)
Lemma C2_counterexample :
  length (get_verse_highlight_rows
            [(2%Z, 1%Z, 3%Z, 0.7, 0.3); (2%Z, 2%Z, 3%Z, 0.2, 0.41)] 1)
  <> 2%nat.
Proof. vm_compute. discriminate. Qed.

(** C2 (amended): for a non-first verse whose previous marker on the same
    page is at (x=0.7, y=0.3) and whose own marker is at (x, y=0.41),
    [get_verse_highlight_rows] emits exactly 3 rows: (y=0.3, LEFT_EDGE,
    0.7), one intermediate full-width row (y=0.355, LEFT_EDGE, RIGHT_EDGE),
    and (y=0.41, x, RIGHT_EDGE). *)
Theorem C2_multi_line_continuing (page_data : list marker_row)
    (verse_index : Z) (surah verse_num prev_surah prev_verse_num page : Z)
    (x y prev_x prev_y : Q) :
  (0 < verse_index < Py.len page_data)%Z ->
  Py.item page_data (Z.to_nat verse_index) no_marker
    = (surah, verse_num, page, x, y) ->
  Py.item page_data (Z.to_nat (verse_index - 1)) no_marker
    = (prev_surah, prev_verse_num, page, prev_x, prev_y) ->
  prev_x == 0.7 -> prev_y == 0.3 -> y == 0.41 ->
  get_verse_highlight_rows page_data verse_index
  = [(prev_y, LEFT_EDGE, prev_x);
     (prev_y + LINE_HEIGHT, LEFT_EDGE, RIGHT_EDGE);
     (y, x, RIGHT_EDGE)]
  /\ prev_y + LINE_HEIGHT == 0.355.
Proof.
  intros Hrange Hitem Hprev Hpx Hpy Hy.
  assert (Hmid : prev_y + LINE_HEIGHT == 0.355) by (rewrite Hpy; reflexivity).
  split; [| exact Hmid].
  rewrite (get_verse_highlight_rows_continuing _ _ _ _ _ _ _ _ _ _ _
             Hrange Hitem Hprev).
  unfold continuing_verse_rows.
  destruct (Qlt_le_dec (Qabs (prev_y - y)) LINE_HEIGHT) as [Hnear | _].
  - exfalso. rewrite Hpy, Hy in Hnear. vm_compute in Hnear. discriminate.
  - rewrite run_while_rows_step by (rewrite Hmid, Hy; reflexivity).
    rewrite run_while_rows_done
      by (rewrite Hmid, Hy; vm_compute; discriminate).
    reflexivity.
Qed.

Lemma C2_multi_line_continuing_witness :
  get_verse_highlight_rows
    [(2%Z, 1%Z, 3%Z, 0.7, 0.3); (2%Z, 2%Z, 3%Z, 0.2, 0.41)] 1
  = [(0.3, LEFT_EDGE, 0.7);
     (0.3 + LINE_HEIGHT, LEFT_EDGE, RIGHT_EDGE);
     (0.41, 0.2, RIGHT_EDGE)]
  /\ 0.3 + LINE_HEIGHT == 0.355.
Proof.
  apply (C2_multi_line_continuing _ 1 2 2 2 1 3 0.2 0.41 0.7 0.3);
    try reflexivity.
  split; reflexivity.
Defined.

(** [round], [min] and [max] do not depend on how a rational is
    written. *)
#[global] Instance round_half_even_proper :
  Proper (Qeq ==> eq) Py.round_half_even.
Proof.
  intros p q Hpq. unfold Py.round_half_even.
  rewrite (Qfloor_comp _ _ Hpq).
  now rewrite (Qcompare_comp (p - inject_Z (Qfloor q)) (q - inject_Z (Qfloor q))
                 ltac:(now rewrite Hpq) (1 # 2) (1 # 2) ltac:(reflexivity)).
Qed.

#[global] Instance round_proper : Proper (Qeq ==> eq ==> Qeq) Py.round.
Proof.
  intros p q Hpq n ? <-. unfold Py.round.
  now rewrite (round_half_even_proper (p * _) (q * _) ltac:(now rewrite Hpq)).
Qed.

#[global] Instance min_proper : Proper (Qeq ==> Qeq ==> Qeq) Py.min.
Proof.
  intros a a' Ha b b' Hb. unfold Py.min.
  destruct (Qlt_le_dec b a), (Qlt_le_dec b' a'); lra.
Qed.

#[global] Instance max_proper : Proper (Qeq ==> Qeq ==> Qeq) Py.max.
Proof.
  intros a a' Ha b b' Hb. unfold Py.max.
  destruct (Qlt_le_dec a b), (Qlt_le_dec a' b'); lra.
Qed.

(** C4: for two verses on the same page with the previous marker at
    (x=0.6, y=0.5) and the current one at (x=0.3, y=0.5), the engine gives
    the current verse exactly one row, and [verse_boxes_from_app_logic]
    turns it into exactly one segment, with x bounds [0.3, 0.6] and y
    bounds [0.4725, 0.5275]. *)
Theorem C4_single_line_segment (page_data : list marker_row)
    (verse_index : nat) (surah verse_num prev_surah prev_verse_num page : Z)
    (x y prev_x prev_y : Q) :
  (0 < verse_index < length page_data)%nat ->
  Py.item page_data verse_index no_marker = (surah, verse_num, page, x, y) ->
  Py.item page_data (verse_index - 1) no_marker
    = (prev_surah, prev_verse_num, page, prev_x, prev_y) ->
  prev_x == 0.6 -> prev_y == 0.5 -> x == 0.3 -> y == 0.5 ->
  get_verse_highlight_rows page_data (Z.of_nat verse_index) = [(y, x, prev_x)]
  /\ exists x_start y_start x_end y_end : Q,
      verse_segments page page_data verse_index
      = [(surah, verse_num, page, 0%nat, x_start, y_start, x_end, y_end)]
      /\ x_start == 0.3 /\ x_end == 0.6
      /\ y_start == 0.4725 /\ y_end == 0.5275.
Proof.
  intros Hrange Hitem Hprev Hpx Hpy Hx Hy.
  assert (Hrows : get_verse_highlight_rows page_data (Z.of_nat verse_index)
                  = [(y, x, prev_x)]).
  { rewrite (get_verse_highlight_rows_continuing page_data (Z.of_nat verse_index)
               surah verse_num prev_surah prev_verse_num page x y prev_x prev_y).
    - unfold continuing_verse_rows.
      destruct (Qlt_le_dec (Qabs (prev_y - y)) LINE_HEIGHT) as [_ | Hfar];
        [reflexivity |].
      exfalso. rewrite Hpy, Hy in Hfar. vm_compute in Hfar. now apply Hfar.
    - unfold Py.len. lia.
    - now rewrite Nat2Z.id.
    - replace (Z.to_nat (Z.of_nat verse_index - 1)) with (verse_index - 1)%nat
        by lia.
      exact Hprev. }
  split; [exact Hrows |].
  unfold verse_segments. rewrite Hitem, Hrows. cbn [Py.enumerate length seq combine map row_segment].
  do 4 eexists. split; [reflexivity |].
  rewrite Hx, Hy, Hpx. repeat split; reflexivity.
Qed.

Lemma C4_single_line_segment_witness :
  get_verse_highlight_rows
    [(2%Z, 1%Z, 3%Z, 0.6, 0.5); (2%Z, 2%Z, 3%Z, 0.3, 0.5)] (Z.of_nat 1)
  = [(0.5, 0.3, 0.6)]
  /\ exists x_start y_start x_end y_end : Q,
      verse_segments 3 [(2%Z, 1%Z, 3%Z, 0.6, 0.5); (2%Z, 2%Z, 3%Z, 0.3, 0.5)] 1
      = [(2%Z, 2%Z, 3%Z, 0%nat, x_start, y_start, x_end, y_end)]
      /\ x_start == 0.3 /\ x_end == 0.6
      /\ y_start == 0.4725 /\ y_end == 0.5275.
Proof.
  apply (C4_single_line_segment _ 1 2 2 2 1 3 0.3 0.5 0.6 0.5);
    try reflexivity.
  split; vm_compute; lia.
Defined.

(* ================================================================= *)
(** ** Clamping of the segments *)

Lemma round_clamp_unit (v : Q) : in_unit (Py.round (Py.max 0 (Py.min 1 v)) 4).
Proof. apply round4_unit, clamp_unit. Qed.

Lemma round_clamp_mono (u v : Q) :
  u <= v ->
  Py.round (Py.max 0 (Py.min 1 u)) 4 <= Py.round (Py.max 0 (Py.min 1 v)) 4.
Proof. intros Huv. now apply round_mono, clamp_mono. Qed.

Lemma row_segment_in_bounds (surah verse_num page : Z) (seg_idx : nat)
    (row : highlight_row) :
  segment_in_bounds (row_segment surah verse_num page seg_idx row).
Proof.
  destruct row as [[y_center start_x] end_x]. unfold row_segment, segment_in_bounds.
  repeat split; try apply round_clamp_unit; apply round_clamp_mono.
  - apply min_le_max.
  - pose proof LINE_HEIGHT_pos. unfold Qdiv.
    assert (0 <= LINE_HEIGHT * / 2) by (vm_compute; discriminate). lra.
Qed.

(** Every segment of the output is built by [row_segment]. *)
Lemma verse_boxes_from_app_logic_segments (rows : list marker_row)
    (seg : segment) :
  In seg (verse_boxes_from_app_logic rows) ->
  exists surah verse_num page seg_idx row,
    seg = row_segment surah verse_num page seg_idx row.
Proof.
  unfold verse_boxes_from_app_logic. intros Hin.
  apply in_flat_map in Hin. destruct Hin as ([page page_data] & _ & Hin).
  apply in_flat_map in Hin. destruct Hin as (verse_index & _ & Hin).
  unfold verse_segments in Hin.
  destruct (Py.item page_data verse_index no_marker)
    as [[[[surah verse_num] _page] _x] _y].
  apply in_map_iff in Hin. destruct Hin as ([seg_idx row] & <- & _).
  now exists surah, verse_num, page, seg_idx, row.
Qed.

(** C8: every segment that [verse_boxes_from_app_logic] returns, for every
    input marker sequence, has its four coordinates in [0,1] and satisfies
    x_start <= x_end and y_start <= y_end. *)
Theorem C8_segments_clamped_and_ordered (rows : list marker_row) :
  Forall segment_in_bounds (verse_boxes_from_app_logic rows).
Proof.
  apply Forall_forall. intros seg Hin.
  destruct (verse_boxes_from_app_logic_segments rows seg Hin)
    as (surah & verse_num & page & seg_idx & row & ->).
  apply row_segment_in_bounds.
Qed.

(* ================================================================= *)
(** ** Point clustering and ordering *)

Section StableSort.

Context {A : Type} (key : A -> Q).

Lemma insert_by_perm (p : A) (l : list A) :
  Permutation (p :: l) (Py.insert_by key p l).
Proof.
  induction l as [| q l IH]; simpl; [reflexivity |].
  destruct (Qle_bool (key p) (key q)); [reflexivity |].
  rewrite perm_swap. now apply perm_skip.
Qed.

Lemma sorted_perm (l : list A) : Permutation l (Py.sorted key l).
Proof.
  induction l as [| p l IH]; simpl; [reflexivity |].
  rewrite <- insert_by_perm. now apply perm_skip.
Qed.



(** The sort is stable: the elements of any one key keep their order. *)
Lemma insert_by_stable (k : Q) (p : A) (l : list A) :
  filter (fun a => Qeq_bool (key a) k) (Py.insert_by key p l)
  = filter (fun a => Qeq_bool (key a) k) (p :: l).
Proof.
  induction l as [| q l IH]; [reflexivity |].
  cbn [Py.insert_by].
  destruct (Qle_bool (key p) (key q)) eqn:Hle; [reflexivity |].
  cbn [filter] in *. rewrite IH.
  destruct (Qeq_bool (key p) k) eqn:Hp, (Qeq_bool (key q) k) eqn:Hq;
    try reflexivity.
  apply Qeq_bool_iff in Hp, Hq.
  assert (Hpq : key p <= key q) by lra.
  apply Qle_bool_iff in Hpq. congruence.
Qed.

Lemma sorted_stable (k : Q) (l : list A) :
  filter (fun a => Qeq_bool (key a) k) (Py.sorted key l)
  = filter (fun a => Qeq_bool (key a) k) l.
Proof.
  induction l as [| p l IH]; [reflexivity |].
  cbn [Py.sorted fold_right]. rewrite insert_by_stable.
  cbn [filter]. fold (Py.sorted key l). now rewrite IH.
Qed.

End StableSort.

(** The grouping loop cuts the sorted list into consecutive pieces. *)
Lemma group_loop_concat (g : Q) (l : list point) :
  forall (groups : list (list point)) (current_group : list point),
    let '(groups', current_group') :=
      fold_left (group_step g) l (groups, current_group) in
    concat (groups' ++ [current_group'])
    = concat (groups ++ [current_group]) ++ l.
Proof.
  induction l as [| p l IH]; intros groups current_group; cbn [fold_left].
  - now rewrite app_nil_r.
  - assert (Hstep : concat (fst (group_step g (groups, current_group) p)
                            ++ [snd (group_step g (groups, current_group) p)])
                    = concat (groups ++ [current_group]) ++ [p]).
    { unfold group_step.
      destruct current_group as [| first rest];
        [| destruct (Qle_bool _ _)]; cbn [fst snd];
        rewrite ?concat_app; simpl; rewrite ?app_nil_r, <- ?app_assoc;
        reflexivity. }
    destruct (group_step g (groups, current_group) p) as [groups1 current1].
    specialize (IH groups1 current1).
    destruct (fold_left (group_step g) l (groups1, current1)).
    cbn [fst snd] in Hstep. cbn beta iota in IH |- *.
    rewrite IH, Hstep, <- app_assoc. reflexivity.
Qed.

Lemma formed_groups_concat (points : list point) (g : Q) :
  concat (formed_groups points g) = Py.sorted snd points.
Proof.
  unfold formed_groups.
  pose proof (group_loop_concat g (Py.sorted snd points) [] []) as H.
  destruct (fold_left (group_step g) (Py.sorted snd points) ([], [])).
  exact H.
Qed.

Lemma concat_map_perm {A : Type} (f : list A -> list A)
    (groups : list (list A)) :
  (forall group, Permutation group (f group)) ->
  Permutation (concat groups) (concat (map f groups)).
Proof.
  intros Hf. induction groups as [| group groups IH]; simpl;
    [reflexivity | now apply Permutation_app].
Qed.







(* ================================================================= *)
(** ** The threshold calibrator *)

Lemma value_bind {A B : Type} (m : Det A) (k : A -> Det B) :
  value (bind m k) = value (k (value m)).
Proof.
  unfold bind, value. destruct m as [a cs]. cbn [fst].
  now destruct (k a).
Qed.

Lemma calls_bind {A B : Type} (m : Det A) (k : A -> Det B) :
  calls (bind m k) = calls m ++ calls (k (value m)).
Proof.
  unfold bind, value, calls. destruct m as [a cs]. cbn [fst snd].
  now destruct (k a).
Qed.

Lemma len_eq {A B : Type} (l : list A) (l' : list B) :
  Py.len l = Py.len l' <-> length l = length l'.
Proof. unfold Py.len. lia. Qed.

Lemma enumerate_length {A : Type} (l : list A) :
  length (Py.enumerate l) = length l.
Proof.
  unfold Py.enumerate. rewrite length_combine, length_seq. lia.
Qed.

(** [range(start, stop)]: the integers from [start] up to [stop - 1],
    each once. *)
Lemma range_step_1 (start stop : Z) :
  Py.range start stop 1
  = map (fun k => (start + Z.of_nat k)%Z) (seq 0 (Z.to_nat (stop - start))).
Proof.
  unfold Py.range. rewrite Z.div_1_r.
  replace (stop - start + 1 - 1)%Z with (stop - start)%Z by lia.
  apply map_ext. intros k. lia.
Qed.

Lemma range_In (start stop z : Z) :
  In z (Py.range start stop 1) <-> (start <= z < stop)%Z.
Proof.
  rewrite range_step_1, in_map_iff. split.
  - intros (k & <- & Hk). apply in_seq in Hk. lia.
  - intros Hz. exists (Z.to_nat (z - start)). split; [lia |].
    apply in_seq. lia.
Qed.

Lemma range_NoDup (start stop : Z) : NoDup (Py.range start stop 1).
Proof.
  rewrite range_step_1. apply Finite.Injective_map_NoDup; [| apply seq_NoDup].
  intros j k Hjk. lia.
Qed.

(** Rows that carry their page number can be read back page by page. *)
Lemma rows_of_page_other {X : Type} (page : Z) (rows : list (Z * Z * Z * X * X)) :
  Forall (fun r => row_page r <> page) rows -> rows_of_page page rows = [].
Proof.
  unfold rows_of_page. induction 1 as [| r rows Hr _ IH]; simpl; [reflexivity |].
  destruct (Z.eqb_spec (row_page r) page); [contradiction | exact IH].
Qed.

Lemma rows_of_page_same {X : Type} (page : Z) (rows : list (Z * Z * Z * X * X)) :
  Forall (fun r => row_page r = page) rows -> rows_of_page page rows = rows.
Proof.
  unfold rows_of_page. induction 1 as [| r rows Hr _ IH]; simpl; [reflexivity |].
  destruct (Z.eqb_spec (row_page r) page); [now rewrite IH | contradiction].
Qed.

Lemma rows_of_page_flat_map {X : Type} (f : Z -> list (Z * Z * Z * X * X))
    (pages : list Z) (page : Z) :
  (forall q, Forall (fun r => row_page r = q) (f q)) ->
  NoDup pages -> In page pages ->
  rows_of_page page (flat_map f pages) = f page.
Proof.
  intros Hf. induction 1 as [| q pages Hq Hnodup IH]; [contradiction |].
  intros Hin. cbn [flat_map]. unfold rows_of_page in *. rewrite filter_app.
  destruct (Z.eq_dec q page) as [-> | Hne].
  - fold (rows_of_page page (f page)). rewrite (rows_of_page_same _ _ (Hf page)).
    fold (rows_of_page page (flat_map f pages)).
    rewrite rows_of_page_other; [apply app_nil_r |].
    apply Forall_forall. intros r Hr.
    apply in_flat_map in Hr. destruct Hr as (q & Hqin & Hr).
    specialize (Hf q). rewrite Forall_forall in Hf. rewrite (Hf _ Hr).
    intros ->. contradiction.
  - destruct Hin as [-> | Hin]; [contradiction |].
    fold (rows_of_page page (f q)). rewrite rows_of_page_other; [now apply IH |].
    eapply Forall_impl; [| exact (Hf q)]. intros r ->. exact Hne.
Qed.

(** The page loop concatenates what its body returns for each page, and
    makes the detector calls of each page in turn. *)
Lemma page_loop_fold {R : Type} (body : Z -> Det (list R * list issue))
    (pages : list Z) :
  forall acc : Det (list R * list issue),
    fold_left (fun acc page =>
                 '(output_rows, issues) <- acc ;;
                 '(rows, new_issues) <- body page ;;
                 ret (output_rows ++ rows, issues ++ new_issues))
              pages acc
    = (fst (value acc) ++ flat_map (fun page => fst (value (body page))) pages,
       snd (value acc) ++ flat_map (fun page => snd (value (body page))) pages,
       calls acc ++ flat_map (fun page => calls (body page)) pages).
Proof.
  induction pages as [| page pages IH]; intros [[output_rows issues] cs];
    cbn [fold_left flat_map value calls fst snd].
  - now rewrite !app_nil_r.
  - rewrite IH. unfold bind, ret, value, calls.
    destruct (body page) as [[rows new_issues] cs']. cbn [fst snd].
    now rewrite !app_nil_r, <- !app_assoc.
Qed.

Lemma page_loop_rows {R : Type} (body : Z -> Det (list R * list issue))
    (pages : list Z) :
  fst (value (page_loop body pages))
  = flat_map (fun page => fst (value (body page))) pages.
Proof. unfold page_loop. now rewrite page_loop_fold. Qed.

Lemma page_loop_issues {R : Type} (body : Z -> Det (list R * list issue))
    (pages : list Z) :
  snd (value (page_loop body pages))
  = flat_map (fun page => snd (value (body page))) pages.
Proof. unfold page_loop. now rewrite page_loop_fold. Qed.

Lemma enumerate_nth_error {A : Type} (l : list A) (k : nat) :
  nth_error (Py.enumerate l) k = option_map (pair k) (nth_error l k).
Proof.
  unfold Py.enumerate.
  assert (H : forall start j,
             nth_error (combine (seq start (length l)) l) j
             = option_map (pair (start + j)%nat) (nth_error l j)).
  { induction l as [| a l IH]; intros start [| j]; cbn; try reflexivity.
    - now rewrite Nat.add_0_r.
    - rewrite IH. now rewrite Nat.add_succ_r. }
  apply (H 0%nat).
Qed.

Section CalibratorProperties.

Variable detect_ayas_template : Z -> Q -> list pixel.
Variable detect_ayas_hough : Z -> Z -> list pixel.
Variable auth_verses : Z -> list (Z * Z).

Local Abbreviation run_sweep := (sweep detect_ayas_template).
Local Abbreviation run_hough := (hough_fallback detect_ayas_hough).
Local Abbreviation gd_page :=
  (generate_data_page detect_ayas_template detect_ayas_hough auth_verses).
Local Abbreviation vd_page :=
  (generate_verse_data_page detect_ayas_template detect_ayas_hough auth_verses).
Local Abbreviation gd_main :=
  (generate_data_main detect_ayas_template detect_ayas_hough auth_verses).
Local Abbreviation vd_main :=
  (generate_verse_data_main detect_ayas_template detect_ayas_hough auth_verses).

Lemma sweep_tracks (page expected_count : Z) (thresholds : list Q) :
  forall best, tracks expected_count best ->
    tracks expected_count (value (run_sweep page expected_count thresholds best)).
Proof.
  induction thresholds as [| t thresholds IH]; intros best Hbest;
    cbn [sweep]; [exact Hbest |].
  rewrite value_bind. cbn [call_template value fst].
  destruct (_ <? _)%Z; [| now apply IH].
  destruct (Z.eqb_spec (Z.abs (Py.len (detect_ayas_template page t) - expected_count)) 0);
    [| now apply IH].
  reflexivity.
Qed.

Lemma hough_tracks (page expected_count : Z) (param2s : list Z) :
  forall best, tracks expected_count best ->
    tracks expected_count (value (run_hough page expected_count param2s best)).
Proof.
  induction param2s as [| p2 param2s IH]; intros best Hbest;
    cbn [hough_fallback]; [exact Hbest |].
  rewrite value_bind. cbn [call_hough value fst].
  destruct (Z.eqb_spec (Py.len (detect_ayas_hough page p2)) expected_count) as [Heq | _];
    [| now apply IH].
  unfold tracks, ret, value. cbn [fst snd]. lia.
Qed.

(** An exact best has the expected length. *)
Lemma tracks_exact (expected_verses : list (Z * Z)) (best : list pixel * Z) :
  tracks (Py.len expected_verses) best -> snd best = 0%Z ->
  length (fst best) = length expected_verses.
Proof. unfold tracks, Py.len. lia. Qed.

Lemma zip_rows_length (page : Z) (expected_verses : list (Z * Z))
    (coords : list pixel) :
  length coords = length expected_verses ->
  length (zip_rows page expected_verses coords) = length expected_verses.
Proof.
  intros Hlen. unfold zip_rows. rewrite length_map, length_combine. lia.
Qed.

Lemma placeholder_rows_length (page : Z) (expected_verses : list (Z * Z))
    (best_coords : list pixel) :
  length (placeholder_rows page expected_verses best_coords)
  = length expected_verses.
Proof.
  unfold placeholder_rows. now rewrite length_map, enumerate_length.
Qed.

(** The rows one page contributes to [generate_data.py]'s [output_rows]
    are as many as its authoritative verses, on each of the four
    branches. *)
Lemma generate_data_page_count (page : Z) :
  length (fst (value (gd_page page))) = length (auth_verses page).
Proof.
  unfold generate_data_page. rewrite value_bind. cbn [call_template value fst].
  set (coords := detect_ayas_template page (default_thresh page)).
  destruct (Z.eqb_spec (Py.len coords) (Py.len (auth_verses page))) as [Heq | Hne].
  { apply zip_rows_length. now apply len_eq. }
  fold (value (A := list raw_row * list issue)).
  rewrite value_bind.
  pose proof (sweep_tracks page (Py.len (auth_verses page)) sweep_thresholds
                (coords, Z.abs (Py.len coords - Py.len (auth_verses page)))
                eq_refl) as Hsweep.
  destruct (value (run_sweep _ _ _ _)) as [best_coords best_diff].
  destruct (Z.eqb_spec best_diff 0) as [Hzero | Hnz].
  { apply zip_rows_length. now apply (tracks_exact _ _ Hsweep). }
  rewrite value_bind.
  pose proof (hough_tracks page (Py.len (auth_verses page)) [30; 28; 25]%Z
                (best_coords, best_diff) Hsweep) as Hhough.
  destruct (value (run_hough _ _ _ _)) as [best_coords' best_diff'].
  destruct (Z.eqb_spec best_diff' 0) as [Hzero' | Hnz'].
  { apply zip_rows_length. now apply (tracks_exact _ _ Hhough). }
  apply placeholder_rows_length.
Qed.

Lemma normalized_rows_length (page : Z) (expected_verses : list (Z * Z))
    (coords : list pixel) :
  length (normalized_rows page expected_verses coords)
  = Nat.min (length expected_verses) (length coords).
Proof. unfold normalized_rows. now rewrite length_map, length_combine. Qed.

Lemma padding_rows_length (page : Z) (expected_verses : list (Z * Z))
    (coords : list pixel) :
  length (padding_rows page expected_verses coords)
  = (length expected_verses - length coords)%nat.
Proof. unfold padding_rows. now rewrite length_map, length_seq. Qed.

(** The same count for [generate_verse_data.py]: the zipped rows are cut
    to the shorter list and the padding fills what is missing. *)
Lemma generate_verse_data_page_count (page : Z) :
  length (fst (value (vd_page page))) = length (auth_verses page).
Proof.
  unfold generate_verse_data_page. rewrite !value_bind.
  destruct (value (calibrate _ _ _ _ _)) as [coords new_issues].
  cbn [ret value fst].
  rewrite length_app, normalized_rows_length, padding_rows_length. lia.
Qed.

(** Every row carries the number of the page whose iteration appended
    it. *)
Lemma generate_data_page_tagged (page : Z) :
  Forall (fun r => row_page r = page) (fst (value (gd_page page))).
Proof.
  assert (Hzip : forall coords,
             Forall (fun r : raw_row => row_page r = page)
                    (zip_rows page (auth_verses page) coords)).
  { intros coords. unfold zip_rows. apply Forall_forall. intros r Hr.
    apply in_map_iff in Hr. destruct Hr as ([[surah verse] [x y]] & <- & _).
    reflexivity. }
  unfold generate_data_page. rewrite value_bind. cbn [call_template value fst].
  destruct (_ =? _)%Z; [apply Hzip |].
  fold (value (A := list raw_row * list issue)). rewrite value_bind.
  destruct (value (run_sweep _ _ _ _)) as [best_coords best_diff].
  destruct (best_diff =? 0)%Z; [apply Hzip |].
  rewrite value_bind.
  destruct (value (run_hough _ _ _ _)) as [best_coords' best_diff'].
  destruct (best_diff' =? 0)%Z; [apply Hzip |].
  unfold placeholder_rows. apply Forall_forall. intros r Hr.
  apply in_map_iff in Hr. destruct Hr as ([i [surah verse]] & <- & _).
  now destruct (if (i <? _)%nat then _ else _).
Qed.

Lemma generate_verse_data_page_tagged (page : Z) :
  Forall (fun r => row_page r = page) (fst (value (vd_page page))).
Proof.
  unfold generate_verse_data_page. rewrite !value_bind.
  destruct (value (calibrate _ _ _ _ _)) as [coords new_issues].
  cbn [ret value fst]. apply Forall_app. split; apply Forall_forall; intros r Hr.
  - unfold normalized_rows in Hr. apply in_map_iff in Hr.
    destruct Hr as ([[surah verse] [raw_x raw_y]] & <- & _).
    now destruct (normalize_coordinates _ _ _).
  - unfold padding_rows in Hr. apply in_map_iff in Hr.
    destruct Hr as (k & <- & _).
    now destruct (Py.item _ _ _).
Qed.

Lemma data_csv_rows_of_page (page : Z) (output_rows : list raw_row) :
  rows_of_page page (data_csv output_rows)
  = data_csv (rows_of_page page output_rows).
Proof.
  unfold rows_of_page, data_csv.
  induction output_rows as [| [[[[surah verse] p] raw_x] raw_y] rows IH];
    [reflexivity |].
  cbn [map filter]. destruct (normalize_coordinates _ _ _) as [nx ny] eqn:Hn.
  cbn [row_page]. destruct (p =? page)%Z; cbn [map]; rewrite ?Hn, IH; reflexivity.
Qed.

(** C1: for every page 1..604, the marker rows that the page loop emits
    for that page are exactly as many as the authoritative verses of the
    page, in [generate_data.py] (in [output_rows] and in [data.csv]) and in
    [generate_verse_data.py], whatever the detectors return: on an exact
    match at the default threshold, after the sweep or through the Hough
    fallback the rows are the zipped pairs of two lists of equal length,
    and on the issue branch they are padded or cut to the expected
    count. *)
Theorem C1_rows_per_page_match_verse_count (page : Z) :
  (1 <= page <= 604)%Z ->
  length (rows_of_page page (fst (value gd_main))) = length (auth_verses page) /\
  length (rows_of_page page (data_csv (fst (value gd_main))))
    = length (auth_verses page) /\
  length (rows_of_page page (fst (value vd_main))) = length (auth_verses page).
Proof.
  intros Hpage.
  assert (Hin : In page (Py.range 1 605 1)) by (apply range_In; lia).
  unfold generate_data_main, generate_verse_data_main.
  rewrite data_csv_rows_of_page, !page_loop_rows.
  unfold raw_row, marker_row.
  rewrite !rows_of_page_flat_map;
    try apply range_NoDup; try exact Hin;
    try apply generate_data_page_tagged;
    try apply generate_verse_data_page_tagged.
  unfold data_csv. rewrite length_map.
  split; [| split];
    try apply generate_data_page_count; apply generate_verse_data_page_count.
Qed.

(** C6: if the detector run at the page class's default threshold already
    returns as many markers as the page has verses, the page loop makes
    that one detector call and no other (no threshold sweep, no Hough
    fallback), records no issue, and emits that list's coordinates in
    order: raw in [generate_data.py], normalised in
    [generate_verse_data.py]. *)
Theorem C6_default_match_shortcut (page : Z) :
  let coords := detect_ayas_template page (default_thresh page) in
  Py.len coords = Py.len (auth_verses page) ->
  gd_page page
  = (zip_rows page (auth_verses page) coords, [],
     [TemplateCall page (default_thresh page)]) /\
  map row_xy (zip_rows page (auth_verses page) coords) = coords /\
  vd_page page
  = (normalized_rows page (auth_verses page) coords, [],
     [TemplateCall page (default_thresh page)]) /\
  map row_xy (normalized_rows page (auth_verses page) coords)
  = map (fun '(x, y) => normalize_coordinates page (inject_Z x) (inject_Z y))
        coords.
Proof.
  intros coords Hlen.
  assert (Hxy : forall (l : list (Z * Z)) (c : list pixel),
             length c = length l -> map row_xy (zip_rows page l c) = c).
  { intros l c. revert l. unfold zip_rows.
    induction c as [| [x y] c IH]; intros [| [surah verse] l] Hl;
      try discriminate; [reflexivity |].
    cbn [combine map row_xy]. rewrite IH by (now injection Hl). reflexivity. }
  assert (Hnxy : forall (l : list (Z * Z)) (c : list pixel),
             length c = length l ->
             map row_xy (normalized_rows page l c)
             = map (fun '(x, y) =>
                      normalize_coordinates page (inject_Z x) (inject_Z y)) c).
  { intros l c. revert l. unfold normalized_rows.
    induction c as [| [x y] c IH]; intros [| [surah verse] l] Hl;
      try discriminate; [reflexivity |].
    cbn [combine map]. destruct (normalize_coordinates _ _ _) as [nx ny].
    cbn [row_xy]. rewrite IH by (now injection Hl). reflexivity. }
  assert (Hlen' : length coords = length (auth_verses page))
    by now apply len_eq.
  split; [| split; [| split]].
  - unfold generate_data_page, bind, call_template. fold coords.
    apply Z.eqb_eq in Hlen. now rewrite Hlen.
  - now apply Hxy.
  - unfold generate_verse_data_page, calibrate, bind, call_template.
    fold coords. apply Z.eqb_eq in Hlen. rewrite Hlen. cbn [negb ret].
    unfold padding_rows. rewrite Hlen', Nat.sub_diag. cbn [seq map].
    now rewrite app_nil_r.
  - now apply Hnxy.
Qed.

(** The sweep keeps either the best it was given or what the detector
    returned at one of its thresholds. *)
Lemma sweep_origin (page expected_count : Z) (thresholds : list Q) :
  forall best,
    fst (value (run_sweep page expected_count thresholds best)) = fst best \/
    exists t, In t thresholds /\
      fst (value (run_sweep page expected_count thresholds best))
      = detect_ayas_template page t.
Proof.
  induction thresholds as [| t thresholds IH]; intros best; cbn [sweep];
    [now left |].
  rewrite value_bind. cbn [call_template value fst].
  destruct (_ <? _)%Z.
  - destruct (_ =? _)%Z.
    + right. exists t. split; [now left | reflexivity].
    + destruct (IH (detect_ayas_template page t,
                    Z.abs (Py.len (detect_ayas_template page t) - expected_count)))
        as [Hkeep | (t' & Hin & Ht')].
      * right. exists t. split; [now left | exact Hkeep].
      * right. exists t'. split; [now right | exact Ht'].
  - destruct (IH best) as [Hkeep | (t' & Hin & Ht')]; [now left |].
    right. exists t'. split; [now right | exact Ht'].
Qed.

Lemma hough_no_exact (page expected_count : Z) (param2s : list Z)
    (best : list pixel * Z) :
  (forall p2, In p2 param2s ->
              Py.len (detect_ayas_hough page p2) <> expected_count) ->
  value (run_hough page expected_count param2s best) = best.
Proof.
  induction param2s as [| p2 param2s IH]; intros Hnone; cbn [hough_fallback];
    [reflexivity |].
  rewrite value_bind. cbn [call_hough value fst].
  destruct (Z.eqb_spec (Py.len (detect_ayas_hough page p2)) expected_count)
    as [Heq | _].
  - exfalso. apply (Hnone p2); [now left | exact Heq].
  - apply IH. intros p2' Hin. apply Hnone. now right.
Qed.

(** When no detector run is exact, the sweep ends with a non-zero
    [best_diff]. *)
Lemma best_after_sweep_inexact (page : Z) :
  never_exact detect_ayas_template detect_ayas_hough auth_verses page ->
  snd (best_after_sweep detect_ayas_template auth_verses page) <> 0%Z.
Proof.
  intros [Htemplate _]. unfold best_after_sweep.
  set (coords := detect_ayas_template page (default_thresh page)).
  set (start := (coords, Z.abs (Py.len coords - Py.len (auth_verses page)))).
  pose proof (sweep_tracks page (Py.len (auth_verses page)) sweep_thresholds
                start eq_refl) as Htracks.
  destruct (sweep_origin page (Py.len (auth_verses page)) sweep_thresholds start)
    as [Hkeep | (t & Hin & Ht)]; unfold tracks in Htracks;
    rewrite Htracks.
  - rewrite Hkeep. cbn [start fst].
    specialize (Htemplate (default_thresh page) (or_introl eq_refl)).
    fold coords in Htemplate. lia.
  - rewrite Ht. specialize (Htemplate t (or_intror Hin)). lia.
Qed.




Lemma padding_rows_beyond (page : Z) (expected_verses : list (Z * Z))
    (coords : list pixel) (k : nat) (surah verse : Z) :
  nth_error expected_verses k = Some (surah, verse) ->
  (length coords <= k)%nat ->
  nth_error (normalized_rows page expected_verses coords
               ++ padding_rows page expected_verses coords) k
  = Some (surah, verse, page, 0, 0).
Proof.
  intros Hk Hbeyond.
  assert (Hlt : (k < length expected_verses)%nat).
  { apply nth_error_Some. congruence. }
  rewrite nth_error_app2; rewrite normalized_rows_length; [| lia].
  replace (Nat.min (length expected_verses) (length coords))
    with (length coords) by lia.
  unfold padding_rows. rewrite nth_error_map.
  rewrite (nth_error_nth' _ 0%nat) by (rewrite length_seq; lia).
  rewrite seq_nth by lia. cbn [option_map].
  replace (length coords + (k - length coords))%nat with k by lia.
  unfold Py.item. now rewrite (nth_error_nth _ _ _ Hk).
Qed.


End CalibratorProperties.

Lemma C1_rows_per_page_match_verse_count_witness :
  length (rows_of_page 3
            (fst (value (generate_data_main template_one_marker hough_none
                                            two_verses))))
  = length (two_verses 3) /\
  length (rows_of_page 3
            (data_csv
               (fst (value (generate_data_main template_one_marker hough_none
                                               two_verses)))))
  = length (two_verses 3) /\
  length (rows_of_page 3
            (fst (value (generate_verse_data_main template_one_marker
                                                  hough_none two_verses))))
  = length (two_verses 3).
Proof.
  apply (C1_rows_per_page_match_verse_count
           template_one_marker hough_none two_verses 3).
  lia.
Defined.

Lemma C6_default_match_shortcut_witness :
  generate_data_page template_exact hough_none two_verses 3
  = (zip_rows 3 (two_verses 3) two_markers, [], [TemplateCall 3 (default_thresh 3)]) /\
  map row_xy (zip_rows 3 (two_verses 3) two_markers) = two_markers /\
  generate_verse_data_page template_exact hough_none two_verses 3
  = (normalized_rows 3 (two_verses 3) two_markers, [],
     [TemplateCall 3 (default_thresh 3)]) /\
  map row_xy (normalized_rows 3 (two_verses 3) two_markers)
  = map (fun '(x, y) => normalize_coordinates 3 (inject_Z x) (inject_Z y))
        two_markers.
Proof.
  apply (C6_default_match_shortcut template_exact hough_none two_verses 3).
  reflexivity.
Defined.



(* ================================================================= *)
(** ** Worked examples *)

(** Two text lines and a stray point: rows top to bottom, right to left
    within a row. *)
Example group_and_sort_example :
  group_and_sort [(1, 5); (3, 5.5); (2, 9); (7, 1); (4, 9.2)] 1
  = [(7, 1); (3, 5.5); (1, 5); (4, 9.2); (2, 9)].
Proof. reflexivity. Qed.

(** Membership is anchored to the first point of the group: 1.2 is within
    the threshold of 0.6 but not of the anchor 0, so it opens a new
    group. *)
Example formed_groups_anchor_example :
  formed_groups [(1, 0); (2, 0.6); (3, 1.2)] 1
  = [[(1, 0); (2, 0.6)]; [(3, 1.2)]].
Proof. reflexivity. Qed.

(** Equal keys keep their input order. *)
Example sorted_stable_example :
  Py.sorted snd [(1, 2); (2, 1); (3, 2); (4, 1)]
  = [(2, 1); (4, 1); (1, 2); (3, 2)].
Proof. reflexivity. Qed.

(** The loop does not exit on one iteration from 0 to 0.1, and does on
    two. *)
Example while_rows_fuel_example :
  while_rows 1 0 0.1 [] = None /\
  while_rows 2 0 0.1 [] = Some [(0, LEFT_EDGE, RIGHT_EDGE);
                                (0 + LINE_HEIGHT, LEFT_EDGE, RIGHT_EDGE)] /\
  loop_iterations 0 0.1 = 2%nat.
Proof. repeat split. Qed.

(** A first verse whose marker is on the first line: one row from its
    own x to the right edge. *)
Example first_line_example :
  get_verse_highlight_rows [(1%Z, 1%Z, 3%Z, 0.4, 0.0275)] 0
  = [(0.0275, 0.4, RIGHT_EDGE)].
Proof. reflexivity. Qed.

(** The whole output for the two verses of C4: the first verse of the
    page runs from the top of the page down to its marker, the second
    takes the rest of the marker's line. *)
Example verse_boxes_example :
  verse_boxes_from_app_logic
    [(2%Z, 1%Z, 3%Z, 0.6, 0.5); (2%Z, 2%Z, 3%Z, 0.3, 0.5)]
  = [(2%Z, 1%Z, 3%Z, 0%nat, 0.0500, 0.0138, 0.9500, 0.0688);
     (2%Z, 1%Z, 3%Z, 1%nat, 0.0500, 0.0688, 0.9500, 0.1238);
     (2%Z, 1%Z, 3%Z, 2%nat, 0.0500, 0.1238, 0.9500, 0.1788);
     (2%Z, 1%Z, 3%Z, 3%nat, 0.0500, 0.1788, 0.9500, 0.2338);
     (2%Z, 1%Z, 3%Z, 4%nat, 0.0500, 0.2338, 0.9500, 0.2888);
     (2%Z, 1%Z, 3%Z, 5%nat, 0.0500, 0.2888, 0.9500, 0.3438);
     (2%Z, 1%Z, 3%Z, 6%nat, 0.0500, 0.3438, 0.9500, 0.3988);
     (2%Z, 1%Z, 3%Z, 7%nat, 0.0500, 0.3988, 0.9500, 0.4538);
     (2%Z, 1%Z, 3%Z, 8%nat, 0.6000, 0.4725, 0.9500, 0.5275);
     (2%Z, 2%Z, 3%Z, 0%nat, 0.3000, 0.4725, 0.6000, 0.5275)].
Proof. reflexivity. Qed.

(** Clamping at work: a marker 0.01 below the top edge would start its
    segment above the page, and one at x = 1.2 would start it right of
    the page. *)
Example clamping_example :
  verse_boxes_from_app_logic [(2%Z, 1%Z, 3%Z, 0.5, 0.01)]
  = [(2%Z, 1%Z, 3%Z, 0%nat, 0.5000, 0.0000, 0.9500, 0.0375)] /\
  verse_boxes_from_app_logic [(2%Z, 1%Z, 3%Z, 1.2, 0.01)]
  = [(2%Z, 1%Z, 3%Z, 0%nat, 0.9500, 0.0000, 1.0000, 0.0375)].
Proof. split; reflexivity. Qed.

(** Rows of two pages are grouped by page before the engine runs, so the
    first row of the second page is a first verse again. *)
Example two_pages_example :
  group_by_page [(2%Z, 1%Z, 3%Z, 0.6, 0.02); (2%Z, 2%Z, 4%Z, 0.3, 0.02);
                 (2%Z, 3%Z, 3%Z, 0.2, 0.02)]
  = [(3%Z, [(2%Z, 1%Z, 3%Z, 0.6, 0.02); (2%Z, 3%Z, 3%Z, 0.2, 0.02)]);
     (4%Z, [(2%Z, 2%Z, 4%Z, 0.3, 0.02)])].
Proof. reflexivity. Qed.

(** The four outcomes of the page loop of [generate_data.py] on a page of
    two verses: the rows, the issues, and the number of detector calls (1
    default run; then up to 60 sweep runs; then up to 3 Hough runs). *)
Example exact_at_default_example :
  generate_data_page template_exact hough_none two_verses 3
  = ([(2, 1, 3, 300, 200); (2, 2, 3, 100, 200)]%Z, [],
     [TemplateCall 3 0.2685]).
Proof. reflexivity. Qed.

Example exact_in_sweep_example :
  generate_data_page template_low_threshold hough_none two_verses 3
  = ([(2, 1, 3, 300, 200); (2, 2, 3, 100, 200)]%Z, [],
     [TemplateCall 3 0.2685; TemplateCall 3 (inject_Z 200 / 1000)]).
Proof. reflexivity. Qed.

Example exact_by_hough_example :
  let out := generate_data_page template_one_marker hough_at_28 two_verses 3 in
  value out = ([(2, 1, 3, 300, 200); (2, 2, 3, 100, 200)]%Z, []) /\
  length (calls out) = 63%nat /\
  skipn 61 (calls out) = [HoughCall 3 30; HoughCall 3 28].
Proof. repeat split. Qed.

Example unresolved_example :
  let out := generate_data_page template_one_marker hough_none two_verses 3 in
  value out
  = ([(2, 1, 3, 100, 200); (2, 2, 3, 100, 200)]%Z, [(3, 2, 1)%Z]) /\
  length (calls out) = 64%nat /\
  data_csv (fst (value out))
  = [(2%Z, 1%Z, 3%Z, 0.1876, 0.2210); (2%Z, 2%Z, 3%Z, 0.1876, 0.2210)].
Proof. repeat split. Qed.

Example nothing_detected_example :
  let out := generate_data_page template_none hough_none two_verses 3 in
  value out = ([(2, 1, 3, 0, 0); (2, 2, 3, 0, 0)]%Z, [(3, 2, 0)%Z]) /\
  data_csv (fst (value out))
  = [(2%Z, 1%Z, 3%Z, 0.0326, 0.0210); (2%Z, 2%Z, 3%Z, 0.0326, 0.0210)] /\
  value (generate_verse_data_page template_none hough_none two_verses 3)
  = ([(2%Z, 1%Z, 3%Z, 0, 0); (2%Z, 2%Z, 3%Z, 0, 0)], [(3, 2, 0)%Z]).
Proof. repeat split. Qed.

(* ================================================================= *)
(** * Further properties *)

(** ** The rows of a verse *)

Lemma Qceiling_minus_1 (q : Q) : Qceiling (q - 1) = (Qceiling q - 1)%Z.
Proof.
  pose proof (Qle_ceiling q) as Hq1. pose proof (Qceiling_lt q) as Hq2.
  pose proof (Qle_ceiling (q - 1)) as Hp1. pose proof (Qceiling_lt (q - 1)) as Hp2.
  unfold Z.sub in Hq2, Hp2. rewrite inject_Z_plus, inject_Z_opp in Hq2, Hp2.
  change (inject_Z 1) with 1 in Hq2, Hp2.
  assert (H1 : (Qceiling (q - 1) < Qceiling q)%Z).
  { rewrite Zlt_Qlt. lra. }
  assert (H2 : (Qceiling q - 2 < Qceiling (q - 1))%Z).
  { rewrite Zlt_Qlt. unfold Z.sub. rewrite inject_Z_plus, inject_Z_opp.
    change (inject_Z 2) with 2. lra. }
  lia.
Qed.

Lemma loop_iterations_succ (current_y bound : Q) :
  current_y < bound ->
  loop_iterations current_y bound
  = S (loop_iterations (current_y + LINE_HEIGHT) bound).
Proof.
  intros Hlt. pose proof (loop_iterations_pos _ _ Hlt) as Hpos.
  unfold loop_iterations in *.
  assert (Hq : (bound - (current_y + LINE_HEIGHT)) / LINE_HEIGHT
               == (bound - current_y) / LINE_HEIGHT - 1).
  { field. intros E. discriminate E. }
  rewrite (Qceiling_comp _ _ Hq), Qceiling_minus_1. lia.
Qed.

Lemma loop_iterations_zero (current_y bound : Q) :
  bound <= current_y -> loop_iterations current_y bound = 0%nat.
Proof.
  intros Hge. unfold loop_iterations.
  assert (Hq : (bound - current_y) / LINE_HEIGHT <= 0).
  { apply Qle_shift_div_r; [exact LINE_HEIGHT_pos | lra]. }
  apply Qceiling_resp_le in Hq. change 0 with (inject_Z 0) in Hq.
  rewrite Qceiling_Z in Hq. lia.
Qed.


#[global] Instance row_eq_equiv : Equivalence row_eq.
Proof.
  split.
  - intros [[a b] c]. cbn. repeat split; reflexivity.
  - intros [[a b] c] [[a' b'] c'] (Ha & Hb & Hc). cbn.
    repeat split; now symmetry.
  - intros [[a b] c] [[a' b'] c'] [[a'' b''] c''] (Ha & Hb & Hc) (Ha' & Hb' & Hc').
    cbn. repeat split; etransitivity; eassumption.
Qed.

Lemma Forall2_row_eq_refl (rows : list highlight_row) : Forall2 row_eq rows rows.
Proof. induction rows; constructor; [reflexivity | assumption]. Qed.




(** Every row the loop appends is centred above the bound. *)
Lemma run_while_rows_below (n : nat) :
  forall current_y bound : Q,
    loop_iterations current_y bound = n ->
    Forall (fun r => y_center r < bound) (run_while_rows current_y bound []).
Proof.
  induction n as [| n IH]; intros current_y bound Hn;
    destruct (Qlt_le_dec current_y bound) as [Hlt | Hge].
  - pose proof (loop_iterations_pos _ _ Hlt). lia.
  - rewrite run_while_rows_done by exact Hge. constructor.
  - rewrite run_while_rows_step by exact Hlt.
    rewrite run_while_rows_app. cbn [app]. constructor; [exact Hlt |].
    apply IH. rewrite (loop_iterations_succ _ _ Hlt) in Hn. lia.
  - rewrite (loop_iterations_zero _ _ Hge) in Hn. discriminate.
Qed.

(** The rows of the loop are centred at or below its start and strictly
    increase. *)
Lemma run_while_rows_increasing (n : nat) :
  forall current_y bound : Q,
    loop_iterations current_y bound = n ->
    Forall (fun r => current_y <= y_center r) (run_while_rows current_y bound [])
    /\ StronglySorted Qlt (map y_center (run_while_rows current_y bound [])).
Proof.
  induction n as [| n IH]; intros current_y bound Hn;
    destruct (Qlt_le_dec current_y bound) as [Hlt | Hge].
  - pose proof (loop_iterations_pos _ _ Hlt). lia.
  - rewrite run_while_rows_done by exact Hge. split; constructor.
  - rewrite run_while_rows_step by exact Hlt.
    rewrite run_while_rows_app. cbn [app map].
    destruct (IH (current_y + LINE_HEIGHT) bound) as [Hlow Hsorted].
    { rewrite (loop_iterations_succ _ _ Hlt) in Hn. lia. }
    pose proof LINE_HEIGHT_pos as Hpos.
    split; constructor.
    + cbn. lra.
    + eapply Forall_impl; [| exact Hlow]. intros r Hr. cbv beta in Hr. lra.
    + exact Hsorted.
    + apply Forall_map. eapply Forall_impl; [| exact Hlow].
      intros r Hr. cbv beta in Hr. cbn [y_center fst]. lra.
  - rewrite (loop_iterations_zero _ _ Hge) in Hn. discriminate.
Qed.

Lemma continuing_verse_rows_single (x y prev_x prev_y : Q) :
  Qabs (prev_y - y) < LINE_HEIGHT ->
  continuing_verse_rows x y prev_x prev_y = [(y, x, prev_x)].
Proof.
  intros Hnear. unfold continuing_verse_rows.
  destruct (Qlt_le_dec _ _) as [_ | Hfar]; [reflexivity | lra].
Qed.

Lemma continuing_verse_rows_multi (x y prev_x prev_y : Q) :
  LINE_HEIGHT <= Qabs (prev_y - y) ->
  continuing_verse_rows x y prev_x prev_y
  = (prev_y, LEFT_EDGE, prev_x)
      :: run_while_rows (prev_y + LINE_HEIGHT) (y - LINE_HEIGHT / 2) []
      ++ [(y, x, RIGHT_EDGE)].
Proof.
  intros Hfar. unfold continuing_verse_rows.
  destruct (Qlt_le_dec _ _) as [Hnear | _]; [lra |].
  rewrite run_while_rows_app. cbn [app]. reflexivity.
Qed.

Lemma first_verse_rows_multi (x y : Q) :
  LINE_HEIGHT < y ->
  first_verse_rows x y
  = run_while_rows (TOP_FIRST_LINE_Y + LINE_HEIGHT / 4) (y - LINE_HEIGHT / 2) []
      ++ [(y, x, RIGHT_EDGE)].
Proof.
  intros Hbelow. unfold first_verse_rows.
  destruct (Qle_bool _ _) eqn:Hle; [| reflexivity].
  apply Qle_bool_iff in Hle. exfalso.
  unfold TOP_FIRST_LINE_Y in Hle.
  assert (LINE_HEIGHT / 2 + LINE_HEIGHT / 2 == LINE_HEIGHT) by field. lra.
Qed.

Lemma first_verse_rows_first_line (x y : Q) :
  y <= LINE_HEIGHT -> first_verse_rows x y = [(y, x, RIGHT_EDGE)].
Proof.
  intros Hfirst. unfold first_verse_rows.
  destruct (Qle_bool _ _) eqn:Hle; [reflexivity |].
  assert (Hle' : y <= TOP_FIRST_LINE_Y + LINE_HEIGHT / 2).
  { unfold TOP_FIRST_LINE_Y.
    assert (LINE_HEIGHT / 2 + LINE_HEIGHT / 2 == LINE_HEIGHT) by field. lra. }
  apply Qle_bool_iff in Hle'. congruence.
Qed.

Lemma StronglySorted_app {A : Type} (R : A -> A -> Prop) (l l' : list A) :
  StronglySorted R l -> StronglySorted R l' ->
  (forall a b, In a l -> In b l' -> R a b) ->
  StronglySorted R (l ++ l').
Proof.
  induction 1 as [| a l Hl IH Ha]; intros Hl' Hcross; [exact Hl' |].
  cbn [app]. constructor.
  - apply IH; [exact Hl' |]. intros a' b Ha' Hb. apply Hcross; [now right | exact Hb].
  - apply Forall_app. split; [exact Ha |].
    apply Forall_forall. intros b Hb. apply Hcross; [now left | exact Hb].
Qed.

Lemma first_verse_rows_sorted (x y : Q) :
  StronglySorted Qlt (map y_center (first_verse_rows x y)).
Proof.
  destruct (Qlt_le_dec LINE_HEIGHT y) as [Hbelow | Hfirst].
  - rewrite (first_verse_rows_multi _ _ Hbelow), map_app.
    set (start := TOP_FIRST_LINE_Y + LINE_HEIGHT / 4).
    set (bound := y - LINE_HEIGHT / 2).
    destruct (run_while_rows_increasing _ start bound eq_refl) as [_ Hsorted].
    pose proof (run_while_rows_below _ start bound eq_refl) as Hbelow'.
    apply StronglySorted_app; [exact Hsorted | repeat constructor |].
    intros a b Ha [<- | []]. apply in_map_iff in Ha.
    destruct Ha as (r & <- & Hr). rewrite Forall_forall in Hbelow'.
    specialize (Hbelow' r Hr). cbv beta in Hbelow'. subst bound.
    unfold y_center in *. cbn [fst].
    assert (0 < LINE_HEIGHT / 2) by reflexivity. lra.
  - rewrite (first_verse_rows_first_line _ _ Hfirst). repeat constructor.
Qed.

Lemma continuing_verse_rows_sorted (x y prev_x prev_y : Q) :
  prev_y <= y ->
  StronglySorted Qlt (map y_center (continuing_verse_rows x y prev_x prev_y)).
Proof.
  intros Horder.
  destruct (Qlt_le_dec (Qabs (prev_y - y)) LINE_HEIGHT) as [Hnear | Hfar].
  - rewrite (continuing_verse_rows_single _ _ _ _ Hnear). repeat constructor.
  - rewrite (continuing_verse_rows_multi _ _ _ _ Hfar).
    assert (Hgap : LINE_HEIGHT <= y - prev_y).
    { rewrite Qabs_neg in Hfar by lra. lra. }
    set (start := prev_y + LINE_HEIGHT) in *.
    set (bound := y - LINE_HEIGHT / 2) in *.
    destruct (run_while_rows_increasing _ start bound eq_refl) as [Hlow Hsorted].
    pose proof (run_while_rows_below _ start bound eq_refl) as Hbelow.
    pose proof LINE_HEIGHT_pos as Hpos.
    assert (Hhalf : 0 < LINE_HEIGHT / 2) by reflexivity.
    cbn [map]. constructor.
    + rewrite map_app. apply StronglySorted_app; [exact Hsorted | repeat constructor |].
      intros a b Ha [<- | []]. apply in_map_iff in Ha.
      destruct Ha as (r & <- & Hr). rewrite Forall_forall in Hbelow.
      specialize (Hbelow r Hr). cbv beta in Hbelow. subst bound.
      unfold y_center in *. cbn [fst]. lra.
    + rewrite map_app. apply Forall_app. split.
      * apply Forall_map. eapply Forall_impl; [| exact Hlow].
        intros r Hr. cbv beta in Hr. subst start. unfold y_center in *.
        cbn [fst]. lra.
      * repeat constructor. unfold y_center. cbn [fst]. lra.
Qed.





(** X3: a verse that follows another on its page with markers less than
    one LINE_HEIGHT apart vertically (in either direction) gets exactly
    one row, at its own y, from its own x to the previous marker's x. *)
Theorem X3_single_line_row (page_data : list marker_row) (verse_index : Z)
    (surah verse_num prev_surah prev_verse_num page : Z)
    (x y prev_x prev_y : Q) :
  (0 < verse_index < Py.len page_data)%Z ->
  Py.item page_data (Z.to_nat verse_index) no_marker
    = (surah, verse_num, page, x, y) ->
  Py.item page_data (Z.to_nat (verse_index - 1)) no_marker
    = (prev_surah, prev_verse_num, page, prev_x, prev_y) ->
  Qabs (prev_y - y) < LINE_HEIGHT ->
  get_verse_highlight_rows page_data verse_index = [(y, x, prev_x)].
Proof.
  intros Hrange Hitem Hprev Hnear.
  rewrite (get_verse_highlight_rows_continuing _ _ _ _ _ _ _ _ _ _ _
             Hrange Hitem Hprev).
  now apply continuing_verse_rows_single.
Qed.

Lemma X3_single_line_row_witness :
  get_verse_highlight_rows
    [(2%Z, 1%Z, 3%Z, 0.7, 0.3); (2%Z, 2%Z, 3%Z, 0.2, 0.31)] 1
  = [(0.31, 0.2, 0.7)].
Proof.
  apply (X3_single_line_row _ 1 2 2 2 1 3 0.2 0.31 0.7 0.3).
  - vm_compute. split; reflexivity.
  - reflexivity.
  - reflexivity.
  - vm_compute. reflexivity.
Defined.

Lemma first_verse_rows_closed (x y : Q) :
  first_verse_rows x y
  = run_while_rows (TOP_FIRST_LINE_Y + LINE_HEIGHT / 4) (y - LINE_HEIGHT / 2) []
      ++ [(y, x, RIGHT_EDGE)].
Proof.
  destruct (Qlt_le_dec LINE_HEIGHT y) as [Hbelow | Hfirst].
  - now apply first_verse_rows_multi.
  - rewrite (first_verse_rows_first_line _ _ Hfirst).
    rewrite run_while_rows_done; [reflexivity |].
    unfold TOP_FIRST_LINE_Y.
    assert (0 < LINE_HEIGHT / 4) by reflexivity.
    assert (LINE_HEIGHT / 2 + LINE_HEIGHT / 2 == LINE_HEIGHT) by field. lra.
Qed.

Lemma get_verse_highlight_rows_page_break (page_data : list marker_row)
    (verse_index : Z) (surah verse_num prev_surah prev_verse_num : Z)
    (page prev_page : Z) (x y prev_x prev_y : Q) :
  (0 < verse_index < Py.len page_data)%Z ->
  Py.item page_data (Z.to_nat verse_index) no_marker
    = (surah, verse_num, page, x, y) ->
  Py.item page_data (Z.to_nat (verse_index - 1)) no_marker
    = (prev_surah, prev_verse_num, prev_page, prev_x, prev_y) ->
  prev_page <> page ->
  get_verse_highlight_rows page_data verse_index = first_verse_rows x y.
Proof.
  intros Hrange Hitem Hprev Hpage. unfold get_verse_highlight_rows.
  destruct (Z.ltb_spec verse_index 0); [lia |].
  destruct (Z.geb_spec verse_index (Py.len page_data)); [lia |].
  cbn [orb]. rewrite Hitem.
  destruct (Z.gtb_spec verse_index 0); [| lia].
  rewrite Hprev. destruct (Z.eqb_spec prev_page page); [contradiction | reflexivity].
Qed.



(** X5: a verse whose predecessor in [page_data] carries another page
    number is treated as the first verse of its page: its rows are those
    of its marker alone, and the predecessor's coordinates play no
    part. *)
Theorem X5_page_break_restarts (page_data : list marker_row)
    (verse_index : Z) (surah verse_num prev_surah prev_verse_num : Z)
    (page prev_page : Z) (x y prev_x prev_y : Q) :
  (0 < verse_index < Py.len page_data)%Z ->
  Py.item page_data (Z.to_nat verse_index) no_marker
    = (surah, verse_num, page, x, y) ->
  Py.item page_data (Z.to_nat (verse_index - 1)) no_marker
    = (prev_surah, prev_verse_num, prev_page, prev_x, prev_y) ->
  prev_page <> page ->
  get_verse_highlight_rows page_data verse_index
  = get_verse_highlight_rows [(surah, verse_num, page, x, y)] 0.
Proof.
  intros Hrange Hitem Hprev Hpage.
  rewrite (get_verse_highlight_rows_page_break _ _ _ _ _ _ _ _ _ _ _ _
             Hrange Hitem Hprev Hpage).
  symmetry. apply (get_verse_highlight_rows_first _ surah verse_num page);
    reflexivity.
Qed.

Lemma X5_page_break_restarts_witness :
  get_verse_highlight_rows
    [(2%Z, 1%Z, 3%Z, 0.7, 0.9); (2%Z, 2%Z, 4%Z, 0.2, 0.1)] 1
  = get_verse_highlight_rows [(2%Z, 2%Z, 4%Z, 0.2, 0.1)] 0.
Proof.
  apply (X5_page_break_restarts _ 1 2 2 2 1 4 3 0.2 0.1 0.7 0.9).
  - vm_compute. split; reflexivity.
  - reflexivity.
  - reflexivity.
  - discriminate.
Defined.

(** X6: for every index in range the last row returned is the verse's own
    line: it is centred on the marker's y and starts at the marker's x. *)
Theorem X6_last_row_is_own_line (page_data : list marker_row)
    (verse_index : Z) (surah verse_num page : Z) (x y : Q) :
  (0 <= verse_index < Py.len page_data)%Z ->
  Py.item page_data (Z.to_nat verse_index) no_marker
    = (surah, verse_num, page, x, y) ->
  exists (above : list highlight_row) (end_x : Q),
    get_verse_highlight_rows page_data verse_index
    = above ++ [(y, x, end_x)].
Proof.
  intros Hrange Hitem. unfold get_verse_highlight_rows.
  destruct (Z.ltb_spec verse_index 0); [lia |].
  destruct (Z.geb_spec verse_index (Py.len page_data)); [lia |].
  cbn [orb]. rewrite Hitem.
  assert (Hfirst : exists above end_x,
             first_verse_rows x y = above ++ [(y, x, end_x)]).
  { rewrite first_verse_rows_closed. now eexists _, _. }
  destruct (verse_index >? 0)%Z; [| exact Hfirst].
  destruct (Py.item page_data (Z.to_nat (verse_index - 1)) no_marker)
    as [[[[prev_surah prev_verse_num] prev_page] prev_x] prev_y].
  destruct (negb (prev_page =? page)%Z); [exact Hfirst |].
  destruct (Qlt_le_dec (Qabs (prev_y - y)) LINE_HEIGHT) as [Hnear | Hfar].
  - rewrite (continuing_verse_rows_single _ _ _ _ Hnear). now exists [], prev_x.
  - rewrite (continuing_verse_rows_multi _ _ _ _ Hfar).
    now exists ((prev_y, LEFT_EDGE, prev_x)
                  :: run_while_rows (prev_y + LINE_HEIGHT) (y - LINE_HEIGHT / 2) []),
               RIGHT_EDGE.
Qed.

Lemma X6_last_row_is_own_line_witness :
  exists (above : list highlight_row) (end_x : Q),
    get_verse_highlight_rows
      [(2%Z, 1%Z, 3%Z, 0.7, 0.3); (2%Z, 2%Z, 3%Z, 0.2, 0.5)] 1
    = above ++ [(0.5, 0.2, end_x)].
Proof.
  apply (X6_last_row_is_own_line _ 1 2 2 3 0.2 0.5).
  - vm_compute. split; [discriminate | reflexivity].
  - reflexivity.
Defined.

(** X7: rows come out top to bottom.  For every index in range whose
    predecessor in [page_data] (if any) has a marker not below the verse's
    own, the row centres strictly increase. *)
Theorem X7_rows_top_to_bottom (page_data : list marker_row)
    (verse_index : Z) :
  (0 <= verse_index < Py.len page_data)%Z ->
  ((0 < verse_index)%Z ->
   snd (row_xy (Py.item page_data (Z.to_nat (verse_index - 1)) no_marker))
   <= snd (row_xy (Py.item page_data (Z.to_nat verse_index) no_marker))) ->
  StronglySorted Qlt
    (map y_center (get_verse_highlight_rows page_data verse_index)).
Proof.
  intros Hrange Horder. unfold get_verse_highlight_rows.
  destruct (Z.ltb_spec verse_index 0); [lia |].
  destruct (Z.geb_spec verse_index (Py.len page_data)); [lia |].
  cbn [orb].
  destruct (Py.item page_data (Z.to_nat verse_index) no_marker)
    as [[[[surah verse_num] page] x] y].
  destruct (Z.gtb_spec verse_index 0) as [Hpos | _];
    [| apply first_verse_rows_sorted].
  specialize (Horder Hpos).
  destruct (Py.item page_data (Z.to_nat (verse_index - 1)) no_marker)
    as [[[[prev_surah prev_verse_num] prev_page] prev_x] prev_y].
  cbn [row_xy snd] in Horder.
  destruct (negb (prev_page =? page)%Z);
    [apply first_verse_rows_sorted | now apply continuing_verse_rows_sorted].
Qed.

Lemma X7_rows_top_to_bottom_witness :
  StronglySorted Qlt
    (map y_center
       (get_verse_highlight_rows
          [(2%Z, 1%Z, 3%Z, 0.7, 0.3); (2%Z, 2%Z, 3%Z, 0.2, 0.5)] 1)).
Proof.
  apply X7_rows_top_to_bottom.
  - vm_compute. split; [discriminate | reflexivity].
  - intros _. vm_compute. discriminate.
Defined.

(* ================================================================= *)
(** ** Grouping by page and the segments of a verse *)

Lemma by_page_append_absent (by_page : list (Z * list marker_row))
    (page : Z) (r : marker_row) :
  ~ In page (map fst by_page) ->
  by_page_append by_page page r = by_page ++ [(page, [r])].
Proof.
  induction by_page as [| [p page_data] rest IH]; intros Habsent;
    cbn [by_page_append app]; [reflexivity |].
  cbn [map fst] in Habsent.
  destruct (Z.eqb_spec p page) as [-> | _].
  - exfalso. apply Habsent. now left.
  - rewrite IH; [reflexivity |]. intros Hin. apply Habsent. now right.
Qed.

Lemma by_page_append_present (pre post : list (Z * list marker_row))
    (page : Z) (page_data : list marker_row) (r : marker_row) :
  ~ In page (map fst pre) ->
  by_page_append (pre ++ (page, page_data) :: post) page r
  = pre ++ (page, page_data ++ [r]) :: post.
Proof.
  induction pre as [| [p d] pre IH]; intros Habsent; cbn [by_page_append app].
  - now rewrite Z.eqb_refl.
  - cbn [map fst] in Habsent.
    destruct (Z.eqb_spec p page) as [-> | _].
    + exfalso. apply Habsent. now left.
    + rewrite IH; [reflexivity |]. intros Hin. apply Habsent. now right.
Qed.

Lemma in_keys_split (by_page : list (Z * list marker_row)) (page : Z) :
  In page (map fst by_page) ->
  exists pre page_data post,
    by_page = pre ++ (page, page_data) :: post /\ ~ In page (map fst pre).
Proof.
  induction by_page as [| [p d] rest IH]; [contradiction |].
  cbn [map fst]. intros Hin.
  destruct (Z.eq_dec p page) as [-> | Hne].
  - now exists [], d, rest.
  - destruct Hin as [Heq | Hin]; [contradiction |].
    destruct (IH Hin) as (pre & page_data & post & -> & Habsent).
    exists ((p, d) :: pre), page_data, post. split; [reflexivity |].
    cbn [map fst]. intros [Heq | Hin']; [contradiction | now apply Habsent].
Qed.

Lemma rows_of_page_snoc (page : Z) (rows : list marker_row) (r : marker_row) :
  rows_of_page page (rows ++ [r])
  = rows_of_page page rows ++ (if (row_page r =? page)%Z then [r] else []).
Proof. unfold rows_of_page. now rewrite filter_app. Qed.

Lemma grouped_step (rows : list marker_row)
    (by_page : list (Z * list marker_row)) (r : marker_row) :
  grouped rows by_page ->
  grouped (rows ++ [r]) (by_page_append by_page (row_page r) r).
Proof.
  intros (Hnodup & Hentries & Hcover).
  destruct (in_dec Z.eq_dec (row_page r) (map fst by_page)) as [Hin | Hout].
  - destruct (in_keys_split _ _ Hin) as (pre & page_data & post & -> & Hpre).
    rewrite (by_page_append_present _ _ _ _ _ Hpre).
    rewrite map_app in Hnodup. cbn [map fst] in Hnodup.
    assert (Hpost : ~ In (row_page r) (map fst post)).
    { apply NoDup_remove_2 in Hnodup. intros Hp. apply Hnodup.
      apply in_or_app. now right. }
    apply Forall_app in Hentries. destruct Hentries as [Hpre' Hrest].
    apply Forall_cons_iff in Hrest. destruct Hrest as [[Hdata _] Hpost'].
    cbn [fst snd] in Hdata.
    repeat split.
    + now rewrite map_app.
    + apply Forall_app. split; [| constructor].
      * apply Forall_forall. intros [p d] Hpd.
        rewrite Forall_forall in Hpre'. destruct (Hpre' _ Hpd) as [Hd Hne].
        cbn [fst snd] in *. split; [| exact Hne].
        rewrite rows_of_page_snoc.
        destruct (Z.eqb_spec (row_page r) p) as [Heq | _];
          [| now rewrite app_nil_r].
        exfalso. apply Hpre. rewrite Heq. apply in_map_iff. now exists (p, d).
      * cbn [fst snd]. rewrite rows_of_page_snoc, Z.eqb_refl, Hdata.
        split; [reflexivity |]. now destruct (rows_of_page (row_page r) rows).
      * apply Forall_forall. intros [p d] Hpd.
        rewrite Forall_forall in Hpost'. destruct (Hpost' _ Hpd) as [Hd Hne].
        cbn [fst snd] in *. split; [| exact Hne].
        rewrite rows_of_page_snoc.
        destruct (Z.eqb_spec (row_page r) p) as [Heq | _];
          [| now rewrite app_nil_r].
        exfalso. apply Hpost. rewrite Heq. apply in_map_iff. now exists (p, d).
    + apply Forall_app. split.
      * eapply Forall_impl; [| exact Hcover]. intros r' Hr'.
        rewrite map_app in *. exact Hr'.
      * constructor; [| constructor]. rewrite map_app. apply in_or_app.
        right. now left.
  - rewrite (by_page_append_absent _ _ _ Hout).
    assert (Hnone : rows_of_page (row_page r) rows = []).
    { apply rows_of_page_other. eapply Forall_impl; [| exact Hcover].
      intros r' Hr' Heq. apply Hout. now rewrite <- Heq. }
    repeat split.
    + rewrite map_app. cbn [map fst].
      apply NoDup_app; [exact Hnodup | repeat constructor; intros [] |].
      intros p Hp [<- | []]. contradiction.
    + apply Forall_app. split; [| constructor; [| constructor]].
      * apply Forall_forall. intros [p d] Hpd.
        rewrite Forall_forall in Hentries. destruct (Hentries _ Hpd) as [Hd Hne].
        cbn [fst snd] in *. split; [| exact Hne].
        rewrite rows_of_page_snoc.
        destruct (Z.eqb_spec (row_page r) p) as [Heq | _];
          [| now rewrite app_nil_r].
        exfalso. apply Hout. rewrite Heq. apply in_map_iff. now exists (p, d).
      * cbn [fst snd]. rewrite rows_of_page_snoc, Z.eqb_refl, Hnone.
        split; [reflexivity | discriminate].
    + apply Forall_app. split.
      * eapply Forall_impl; [| exact Hcover]. intros r' Hr'.
        rewrite map_app. apply in_or_app. now left.
      * constructor; [| constructor]. rewrite map_app. apply in_or_app.
        right. now left.
Qed.

Lemma group_by_page_snoc (rows : list marker_row) (r : marker_row) :
  group_by_page (rows ++ [r])
  = by_page_append (group_by_page rows) (row_page r) r.
Proof.
  unfold group_by_page. rewrite fold_left_app. cbn [fold_left].
  now destruct r as [[[[surah verse_num] page] x] y].
Qed.

Lemma group_by_page_grouped (rows : list marker_row) :
  grouped rows (group_by_page rows).
Proof.
  induction rows as [| r rows IH] using rev_ind.
  - repeat split; constructor.
  - rewrite group_by_page_snoc. now apply grouped_step.
Qed.

(** X8: [by_page], as [verse_boxes_from_app_logic] builds it, has one
    entry per page that occurs in the input; the list under a page is
    never empty and holds exactly the input rows of that page, in input
    order, wherever they stand in the input; and no input row is left
    out. *)
Theorem X8_group_by_page_partitions (rows : list marker_row) :
  NoDup (map fst (group_by_page rows)) /\
  (forall page page_data,
      In (page, page_data) (group_by_page rows) ->
      page_data = rows_of_page page rows /\ page_data <> []) /\
  (forall r, In r rows ->
      In (row_page r, rows_of_page (row_page r) rows) (group_by_page rows)).
Proof.
  destruct (group_by_page_grouped rows) as (Hnodup & Hentries & Hcover).
  rewrite Forall_forall in Hentries, Hcover.
  split; [exact Hnodup |]. split.
  - intros page page_data Hin. exact (Hentries _ Hin).
  - intros r Hr. specialize (Hcover r Hr).
    apply in_map_iff in Hcover. destruct Hcover as ([p d] & Hp & Hpd).
    cbn [fst] in Hp. subst p.
    destruct (Hentries _ Hpd) as [Hd _]. cbn [fst snd] in Hd. now subst d.
Qed.


Lemma enumerate_map_fst {A : Type} (l : list A) :
  map fst (Py.enumerate l) = seq 0 (length l).
Proof.
  unfold Py.enumerate. generalize 0%nat.
  induction l as [| a l IH]; intros start; cbn [length seq combine map];
    [reflexivity | now rewrite IH].
Qed.

(** X9: the segments written for one verse carry that verse's surah and
    verse number and the page of the group, and are numbered 0, 1, 2, ...
    in the order of the rows of [get_verse_highlight_rows], one per
    row. *)
Theorem X9_segments_numbered_from_zero (page : Z)
    (page_data : list marker_row) (verse_index : nat)
    (surah verse_num own_page : Z) (x y : Q) :
  Py.item page_data verse_index no_marker
    = (surah, verse_num, own_page, x, y) ->
  map segment_key (verse_segments page page_data verse_index)
  = map (fun seg_idx => (surah, verse_num, page, seg_idx))
        (seq 0 (length (get_verse_highlight_rows page_data
                          (Z.of_nat verse_index)))).
Proof.
  intros Hitem. unfold verse_segments. rewrite Hitem.
  rewrite <- enumerate_map_fst, !map_map.
  apply map_ext. intros [seg_idx [[y_center start_x] end_x]]. reflexivity.
Qed.

Lemma X9_segments_numbered_from_zero_witness :
  map segment_key
      (verse_segments 3 [(2%Z, 1%Z, 3%Z, 0.7, 0.3); (2%Z, 2%Z, 3%Z, 0.2, 0.5)] 1)
  = map (fun seg_idx => (2%Z, 2%Z, 3%Z, seg_idx))
        (seq 0 (length (get_verse_highlight_rows
                          [(2%Z, 1%Z, 3%Z, 0.7, 0.3); (2%Z, 2%Z, 3%Z, 0.2, 0.5)]
                          (Z.of_nat 1)))).
Proof.
  apply (X9_segments_numbered_from_zero 3 _ 1 2 2 3 0.2 0.5). reflexivity.
Defined.








(* ================================================================= *)
(** ** More on the coordinate normaliser *)

Lemma Qfloor_unique (q : Q) (z : Z) :
  inject_Z z <= q -> q < inject_Z (z + 1) -> Qfloor q = z.
Proof.
  intros Hlo Hhi.
  pose proof (Qfloor_le q) as Hf1. pose proof (Qlt_floor q) as Hf2.
  rewrite inject_Z_plus in Hhi, Hf2. change (inject_Z 1) with 1 in Hhi, Hf2.
  assert (H1 : (Qfloor q < z + 1)%Z).
  { rewrite Zlt_Qlt, inject_Z_plus. change (inject_Z 1) with 1. lra. }
  assert (H2 : (z < Qfloor q + 1)%Z).
  { rewrite Zlt_Qlt, inject_Z_plus. change (inject_Z 1) with 1. lra. }
  lia.
Qed.

(** An integer less than a half away is what [round] returns. *)
Lemma round_half_even_near (q : Q) (z : Z) :
  Qabs (q - inject_Z z) < 1 # 2 -> Py.round_half_even q = z.
Proof.
  intros Hnear. apply Qabs_Qlt_condition in Hnear. destruct Hnear as [Hlo Hhi].
  unfold Py.round_half_even.
  destruct (Qlt_le_dec q (inject_Z z)) as [Hbelow | Habove].
  - assert (Hfloor : Qfloor q = (z - 1)%Z).
    { apply Qfloor_unique.
      - unfold Z.sub. rewrite inject_Z_plus, inject_Z_opp.
        change (inject_Z 1) with 1. lra.
      - replace (z - 1 + 1)%Z with z by lia. exact Hbelow. }
    rewrite Hfloor. unfold Z.sub. rewrite inject_Z_plus, inject_Z_opp.
    change (inject_Z 1) with 1.
    destruct (Qcompare_spec (q - (inject_Z z + - (1))) (1 # 2));
      [exfalso; lra | exfalso; lra | lia].
  - assert (Hfloor : Qfloor q = z).
    { apply Qfloor_unique; [exact Habove |].
      rewrite inject_Z_plus. change (inject_Z 1) with 1. lra. }
    rewrite Hfloor.
    destruct (Qcompare_spec (q - inject_Z z) (1 # 2));
      [exfalso; lra | reflexivity | exfalso; lra].
Qed.

(** Rounding moves a number by at most half a unit. *)
Lemma round_half_even_error (q : Q) :
  Qabs (inject_Z (Py.round_half_even q) - q) <= 1 # 2.
Proof.
  pose proof (Qfloor_le q) as Hf1. pose proof (Qlt_floor q) as Hf2.
  rewrite inject_Z_plus in Hf2. change (inject_Z 1) with 1 in Hf2.
  apply Qabs_Qle_condition. unfold Py.round_half_even.
  destruct (Qcompare_spec (q - inject_Z (Qfloor q)) (1 # 2)) as [He | Hl | Hg];
    try destruct (Z.even (Qfloor q));
    rewrite ?inject_Z_plus; change (inject_Z 1) with 1; split; lra.
Qed.

Lemma round4_error (q : Q) : Qabs (Py.round q 4 - q) <= 1 # 20000.
Proof.
  unfold Py.round. change (inject_Z (10 ^ Z.of_nat 4)) with 10000.
  pose proof (round_half_even_error (q * 10000)) as Herr.
  apply Qabs_Qle_condition in Herr. destruct Herr as [Hlo Hhi].
  apply Qabs_Qle_condition.
  set (r := inject_Z (Py.round_half_even (q * 10000))) in *.
  assert (Hdiv : r / 10000 == r * (1 # 10000)) by (field).
  rewrite Hdiv. split; lra.
Qed.

Lemma round4_div_monotone (v v' w : Q) :
  0 < w -> v <= v' -> Py.round (v / w) 4 <= Py.round (v' / w) 4.
Proof.
  intros Hw Hv. apply round_mono. unfold Qdiv.
  apply Qmult_le_compat_r; [exact Hv |].
  apply Qlt_le_weak, Qinv_lt_0_compat, Hw.
Qed.

(** X11: normalisation keeps order on both axes and on both page classes:
    a raw coordinate further right (further down) never normalises to a
    smaller x (y), and each output depends on its own axis only. *)
Theorem X11_normalize_monotone (page : Z) (x x' y y' : Q) :
  x <= x' -> y <= y' ->
  fst (normalize_coordinates page x y) <= fst (normalize_coordinates page x' y')
  /\ snd (normalize_coordinates page x y)
     <= snd (normalize_coordinates page x' y').
Proof.
  intros Hx Hy. unfold normalize_coordinates.
  destruct (page <=? 2)%Z; cbn [fst snd]; split;
    apply round4_div_monotone; (reflexivity || lra).
Qed.

Lemma X11_normalize_monotone_witness :
  fst (normalize_coordinates 3 100 200) <= fst (normalize_coordinates 3 101 900)
  /\ snd (normalize_coordinates 3 100 200)
     <= snd (normalize_coordinates 3 101 900).
Proof.
  apply X11_normalize_monotone; unfold Qle; simpl; lia.
Defined.

Lemma normalize_axis_round_trip (v : Z) (offset width : Q) :
  0 < width -> width <= 1000 ->
  (exists k : Z, offset = inject_Z k) ->
  Py.round_half_even
    (Py.round ((inject_Z v + offset) / width) 4 * width - offset) = v.
Proof.
  intros Hpos Hwidth [k ->].
  apply round_half_even_near.
  pose proof (round4_error ((inject_Z v + inject_Z k) / width)) as Herr.
  apply Qabs_Qle_condition in Herr. destruct Herr as [Hlo Hhi].
  set (n := Py.round ((inject_Z v + inject_Z k) / width) 4) in *.
  assert (Hq : (inject_Z v + inject_Z k) / width * width
               == inject_Z v + inject_Z k).
  { field. intros E. rewrite E in Hpos. now apply Qlt_irrefl in Hpos. }
  set (q := (inject_Z v + inject_Z k) / width) in *.
  assert (Hup : (n - q) * width <= (1 # 20000) * width)
    by (apply Qmult_le_compat_r; lra).
  assert (Hdown : (- (1 # 20000)) * width <= (n - q) * width)
    by (apply Qmult_le_compat_r; lra).
  apply Qabs_Qlt_condition. split; nra.
Qed.

(** X12: normalisation loses no pixel.  On either page class the integer
    raw coordinate can be read back from the normalised one: rounding
    [nx * width - offset] and [ny * height - offset] to the nearest
    integer gives x and y again, so two different pixels never normalise
    to the same pair. *)
Theorem X12_normalize_pixel_round_trip (page x y : Z) :
  let '(nx, ny) := normalize_coordinates page (inject_Z x) (inject_Z y) in
  Py.round_half_even (nx * page_width page - template_offset page) = x /\
  Py.round_half_even (ny * page_height page - template_offset page) = y.
Proof.
  unfold normalize_coordinates, page_width, page_height, template_offset.
  destruct (page <=? 2)%Z; split; apply normalize_axis_round_trip;
    try reflexivity; try (unfold Qle; simpl; lia).
  - now exists 26%Z.
  - now exists 26%Z.
  - now exists 21%Z.
  - now exists 21%Z.
Qed.

(** X13: on either page class a raw coordinate whose template centre
    (x + offset, y + offset) lies on the page normalises into [0,1] x
    [0,1]; the centre at the top-left corner of the page gives exactly
    (0, 0) and the centre at the bottom-right corner exactly (1, 1). *)
Theorem X13_normalize_unit_square (page : Z) (x y : Q) :
  0 <= x + template_offset page <= page_width page ->
  0 <= y + template_offset page <= page_height page ->
  in_unit (fst (normalize_coordinates page x y)) /\
  in_unit (snd (normalize_coordinates page x y)) /\
  (let '(nx, ny) := normalize_coordinates page (- template_offset page)
                                          (- template_offset page) in
   nx == 0 /\ ny == 0) /\
  (let '(nx, ny) := normalize_coordinates page
                      (page_width page - template_offset page)
                      (page_height page - template_offset page) in
   nx == 1 /\ ny == 1).
Proof.
  intros Hx Hy.
  destruct (normalize_coordinates_unit page x y Hx Hy) as [Hnx Hny].
  split; [exact Hnx |]. split; [exact Hny |].
  unfold normalize_coordinates, page_width, page_height, template_offset.
  destruct (page <=? 2)%Z; repeat split; reflexivity.
Qed.

Lemma X13_normalize_unit_square_witness :
  in_unit (fst (normalize_coordinates 1 400 700)) /\
  in_unit (snd (normalize_coordinates 1 400 700)) /\
  (let '(nx, ny) := normalize_coordinates 1 (- template_offset 1)
                                          (- template_offset 1) in
   nx == 0 /\ ny == 0) /\
  (let '(nx, ny) := normalize_coordinates 1
                      (page_width 1 - template_offset 1)
                      (page_height 1 - template_offset 1) in
   nx == 1 /\ ny == 1).
Proof.
  apply (X13_normalize_unit_square 1 400 700);
    vm_compute; split; discriminate.
Defined.

(* ================================================================= *)
(** ** More on the threshold calibrator *)

Section CalibratorOutcome.

Variable detect_ayas_template : Z -> Q -> list pixel.
Variable detect_ayas_hough : Z -> Z -> list pixel.
Variable auth_verses : Z -> list (Z * Z).

Local Abbreviation run_sweep := (sweep detect_ayas_template).
Local Abbreviation run_hough := (hough_fallback detect_ayas_hough).
Local Abbreviation gd_page :=
  (generate_data_page detect_ayas_template detect_ayas_hough auth_verses).
Local Abbreviation vd_page :=
  (generate_verse_data_page detect_ayas_template detect_ayas_hough auth_verses).
Local Abbreviation gd_main :=
  (generate_data_main detect_ayas_template detect_ayas_hough auth_verses).
Local Abbreviation vd_main :=
  (generate_verse_data_main detect_ayas_template detect_ayas_hough auth_verses).
Local Abbreviation swept := (best_after_sweep detect_ayas_template auth_verses).
Local Abbreviation final :=
  (calibrated detect_ayas_template detect_ayas_hough auth_verses).
Local Abbreviation expected := (fun page => Py.len (auth_verses page)).

(** Both page loops in terms of the outcome of the calibration. *)
Lemma generate_data_page_value (page : Z) :
  value (gd_page page)
  = if (snd (final page) =? 0)%Z
    then (zip_rows page (auth_verses page) (fst (final page)), [])
    else (placeholder_rows page (auth_verses page) (fst (final page)),
          [(page, expected page, Py.len (fst (final page)))]).
Proof.
  unfold generate_data_page, calibrated.
  rewrite value_bind. cbn [call_template value fst].
  destruct (_ =? _)%Z; [reflexivity |].
  fold (value (A := list raw_row * list issue)). rewrite value_bind.
  fold (swept page). destruct (swept page) as [best_coords best_diff].
  cbn [fst snd].
  destruct (best_diff =? 0)%Z eqn:Hdiff; [cbn [fst snd]; now rewrite Hdiff |].
  rewrite value_bind.
  destruct (value (run_hough _ _ _ _)) as [best_coords' best_diff'].
  cbn [fst snd]. now destruct (best_diff' =? 0)%Z.
Qed.

Lemma generate_verse_data_page_value (page : Z) :
  value (vd_page page)
  = (normalized_rows page (auth_verses page) (fst (final page))
       ++ padding_rows page (auth_verses page) (fst (final page)),
     if (snd (final page) =? 0)%Z then []
     else [(page, expected page, Py.len (fst (final page)))]).
Proof.
  unfold generate_verse_data_page, calibrate, calibrated.
  rewrite value_bind. cbn [call_template value fst].
  destruct (_ =? _)%Z; [reflexivity |]. cbn [negb].
  fold (value (A := list marker_row * list issue)). rewrite !value_bind.
  fold (swept page). destruct (swept page) as [best_coords best_diff].
  cbn [fst snd].
  destruct (best_diff =? 0)%Z eqn:Hdiff; cbn [negb].
  - rewrite value_bind. cbn [ret value fst snd]. now rewrite Hdiff.
  - rewrite value_bind.
    destruct (value (run_hough _ _ _ _)) as [best_coords' best_diff'].
    cbn [ret value fst snd]. now destruct (best_diff' =? 0)%Z.
Qed.

Lemma best_after_sweep_tracks (page : Z) : tracks (expected page) (swept page).
Proof. unfold best_after_sweep. now apply sweep_tracks. Qed.

Lemma calibrated_tracks (page : Z) : tracks (expected page) (final page).
Proof.
  unfold calibrated.
  destruct (Z.eqb_spec (Py.len (detect_ayas_template page (default_thresh page)))
                       (Py.len (auth_verses page))) as [Heq | _].
  - unfold tracks. cbn [fst snd]. lia.
  - destruct (_ =? _)%Z; [apply best_after_sweep_tracks |].
    apply hough_tracks, best_after_sweep_tracks.
Qed.

(** The sweep never ends with a worse best than it started with, nor
    with one worse than a threshold it was given. *)
Lemma sweep_minimal (page expected_count : Z) (thresholds : list Q) :
  forall best,
    (snd (value (run_sweep page expected_count thresholds best)) <= snd best)%Z /\
    forall t, In t thresholds ->
      (snd (value (run_sweep page expected_count thresholds best))
       <= Z.abs (Py.len (detect_ayas_template page t) - expected_count))%Z.
Proof.
  induction thresholds as [| t thresholds IH]; intros best; cbn [sweep].
  - split; [apply Z.le_refl | intros t []].
  - rewrite value_bind. cbn [call_template value fst].
    set (c := detect_ayas_template page t).
    set (d := Z.abs (Py.len c - expected_count)).
    destruct (Z.ltb_spec d (snd best)) as [Hless | Hmore].
    + destruct (Z.eqb_spec d 0) as [Hzero | Hnz].
      * unfold value, ret. cbn [fst snd]. split; [lia |].
        intros t' _. lia.
      * destruct (IH (c, d)) as [Hle Hall]. cbn [snd] in Hle.
        split; [lia |]. intros t' [<- | Hin]; [exact Hle | now apply Hall].
    + destruct (IH best) as [Hle Hall].
      split; [exact Hle |]. intros t' [<- | Hin]; [fold c d; lia | now apply Hall].
Qed.

(** X14: when the threshold sweep of a page is over, [best_coords] is
    what the template detector returned at one of the thresholds tried
    (the default one or one of the sweep), [best_diff] is the distance of
    its length from the expected count, and no threshold of the whole
    list, tried or not, would have come closer. *)
Theorem X14_sweep_keeps_the_closest (page : Z) :
  (exists t, In t (default_thresh page :: sweep_thresholds) /\
             fst (swept page) = detect_ayas_template page t) /\
  snd (swept page) = Z.abs (Py.len (fst (swept page)) - expected page) /\
  (forall t, In t (default_thresh page :: sweep_thresholds) ->
     (snd (swept page)
      <= Z.abs (Py.len (detect_ayas_template page t) - expected page))%Z).
Proof.
  split; [| split].
  - unfold best_after_sweep.
    set (start := (detect_ayas_template page (default_thresh page), _)).
    destruct (sweep_origin detect_ayas_template page (expected page)
                sweep_thresholds start) as [Hkeep | (t & Hin & Ht)].
    + exists (default_thresh page). split; [now left | exact Hkeep].
    + exists t. split; [now right | exact Ht].
  - apply best_after_sweep_tracks.
  - intros t Hin. unfold best_after_sweep.
    set (start := (detect_ayas_template page (default_thresh page), _)).
    destruct (sweep_minimal page (expected page) sweep_thresholds start)
      as [Hle Hall].
    destruct Hin as [<- | Hin]; [exact Hle | now apply Hall].
Qed.

Lemma sweep_finds_exact (page expected_count : Z) (thresholds : list Q) :
  forall best,
    tracks expected_count best -> snd best <> 0%Z ->
    (exists t, In t thresholds /\
               Py.len (detect_ayas_template page t) = expected_count) ->
    snd (value (run_sweep page expected_count thresholds best)) = 0%Z.
Proof.
  induction thresholds as [| t thresholds IH]; intros best Htracks Hnz (t' & Hin & Ht');
    [contradiction |].
  cbn [sweep]. rewrite value_bind. cbn [call_template value fst].
  set (c := detect_ayas_template page t).
  set (d := Z.abs (Py.len c - expected_count)).
  assert (Hpos : (0 < snd best)%Z) by (unfold tracks in Htracks; lia).
  destruct (Z.eqb_spec d 0) as [Hzero | Hdnz].
  - destruct (Z.ltb_spec d (snd best)); [| lia].
    unfold value, ret. cbn [fst snd]. exact Hzero.
  - assert (Hrest : exists t0, In t0 thresholds /\
                      Py.len (detect_ayas_template page t0) = expected_count).
    { destruct Hin as [<- | Hin]; [| now exists t'].
      exfalso. apply Hdnz. subst d c. lia. }
    destruct (Z.ltb_spec d (snd best)).
    + apply IH; [reflexivity | exact Hdnz | exact Hrest].
    + now apply IH.
Qed.

Lemma hough_finds_exact (page expected_count : Z) (param2s : list Z)
    (best : list pixel * Z) :
  (exists p2, In p2 param2s /\
              Py.len (detect_ayas_hough page p2) = expected_count) ->
  snd (value (run_hough page expected_count param2s best)) = 0%Z.
Proof.
  induction param2s as [| p2 param2s IH]; intros (p2' & Hin & Hp2');
    [contradiction |].
  cbn [hough_fallback]. rewrite value_bind. cbn [call_hough value fst].
  destruct (Z.eqb_spec (Py.len (detect_ayas_hough page p2)) expected_count)
    as [_ | Hne]; [reflexivity |].
  apply IH. destruct Hin as [<- | Hin]; [contradiction | now exists p2'].
Qed.

(** Calibration ends inexact exactly when no detector run is exact. *)
Lemma calibrated_inexact_iff (page : Z) :
  snd (final page) <> 0%Z
  <-> never_exact detect_ayas_template detect_ayas_hough auth_verses page.
Proof.
  split.
  - intros Hnz. unfold calibrated in Hnz.
    destruct (Z.eqb_spec (Py.len (detect_ayas_template page (default_thresh page)))
                         (expected page)) as [Heq | Hdefault];
      [now cbn [snd] in Hnz |].
    destruct (Z.eqb_spec (snd (swept page)) 0) as [Hzero | Hswept];
      [contradiction |].
    split.
    + intros t [<- | Hin] Hexact; [contradiction |].
      apply Hswept. unfold best_after_sweep.
      apply sweep_finds_exact; [reflexivity | cbn [snd]; lia | now exists t].
    + intros p2 Hin Hexact. apply Hnz.
      apply hough_finds_exact. now exists p2.
  - intros Hnever Hzero.
    pose proof (best_after_sweep_inexact _ _ _ page Hnever) as Hswept.
    destruct Hnever as [Htemplate Hhough].
    unfold calibrated in Hzero.
    destruct (Z.eqb_spec (Py.len (detect_ayas_template page (default_thresh page)))
                         (expected page)) as [Heq | Hdefault].
    + apply (Htemplate (default_thresh page)); [now left | exact Heq].
    + destruct (Z.eqb_spec (snd (swept page)) 0); [contradiction |].
      rewrite (hough_no_exact _ _ _ _ _ Hhough) in Hzero. contradiction.
Qed.

(** The detector calls of one page, in terms of the sweep and the
    fallback. *)
Lemma generate_data_page_calls (page : Z) :
  calls (gd_page page)
  = TemplateCall page (default_thresh page)
    :: if (Py.len (detect_ayas_template page (default_thresh page))
           =? expected page)%Z
       then []
       else
         calls (run_sweep page (expected page) sweep_thresholds
                  (detect_ayas_template page (default_thresh page),
                   Z.abs (Py.len (detect_ayas_template page (default_thresh page))
                          - expected page)))
         ++ if (snd (swept page) =? 0)%Z then []
            else calls (run_hough page (expected page) [30; 28; 25]%Z
                                  (swept page)).
Proof.
  unfold generate_data_page, best_after_sweep, bind, call_template, calls, value.
  cbn [fst snd app].
  destruct (_ =? _)%Z; [reflexivity |].
  destruct (run_sweep _ _ _ _) as [[best_coords best_diff] cs]. cbn [fst snd].
  destruct (best_diff =? 0)%Z; [reflexivity |].
  destruct (run_hough _ _ _ _) as [[best_coords' best_diff'] cs'].
  destruct (best_diff' =? 0)%Z; cbn [ret fst snd]; now rewrite app_nil_r.
Qed.

Lemma generate_verse_data_page_calls (page : Z) :
  calls (vd_page page) = calls (gd_page page).
Proof.
  rewrite generate_data_page_calls.
  unfold generate_verse_data_page, calibrate, best_after_sweep, bind,
    call_template, calls, value, ret.
  cbn [fst snd app].
  destruct (_ =? _)%Z; cbn [negb]; [reflexivity |].
  destruct (run_sweep _ _ _ _) as [[best_coords best_diff] cs]. cbn [fst snd].
  destruct (best_diff =? 0)%Z; cbn [negb fst snd].
  - now rewrite ?app_nil_r.
  - destruct (run_hough _ _ _ _) as [[best_coords' best_diff'] cs'].
    cbn [fst snd]. now rewrite ?app_nil_r.
Qed.

Lemma sweep_calls_length (page expected_count : Z) (thresholds : list Q) :
  forall best,
    (length (calls (run_sweep page expected_count thresholds best))
     <= length thresholds)%nat.
Proof.
  induction thresholds as [| t thresholds IH]; intros best; cbn [sweep];
    [apply le_n |].
  rewrite calls_bind. cbn [call_template calls value fst snd app length].
  destruct (_ <? _)%Z; [destruct (_ =? _)%Z |];
    try (apply le_n_S, IH). cbn. lia.
Qed.

Lemma hough_calls_length (page expected_count : Z) (param2s : list Z)
    (best : list pixel * Z) :
  (length (calls (run_hough page expected_count param2s best))
   <= length param2s)%nat.
Proof.
  induction param2s as [| p2 param2s IH]; cbn [hough_fallback]; [apply le_n |].
  rewrite calls_bind. cbn [call_hough calls value fst snd app length].
  destruct (_ =? _)%Z; [cbn; lia | apply le_n_S, IH].
Qed.

Lemma page_loop_calls {R : Type} (body : Z -> Det (list R * list issue))
    (pages : list Z) :
  calls (page_loop body pages) = flat_map (fun page => calls (body page)) pages.
Proof. unfold page_loop. now rewrite page_loop_fold. Qed.

(** X15: on every page the two scripts run the detectors in the same
    way: [generate_verse_data.py] makes exactly the detector calls of
    [generate_data.py], in the same order, for one page and for the whole
    run; a page costs at least the default template run and at most 64
    runs (1 default, 60 of the sweep, 3 Hough). *)
Theorem X15_both_scripts_same_detector_calls (page : Z) :
  calls (vd_page page) = calls (gd_page page) /\
  calls vd_main = calls gd_main /\
  hd_error (calls (gd_page page))
    = Some (TemplateCall page (default_thresh page)) /\
  (length (calls (gd_page page)) <= 64)%nat.
Proof.
  split; [apply generate_verse_data_page_calls |].
  split; [| split].
  - unfold generate_data_main, generate_verse_data_main.
    rewrite !page_loop_calls. apply flat_map_ext.
    intros p. apply generate_verse_data_page_calls.
  - now rewrite generate_data_page_calls.
  - rewrite generate_data_page_calls. cbn [length].
    destruct (_ =? _)%Z; [cbn; lia |].
    rewrite length_app.
    pose proof (sweep_calls_length page (expected page) sweep_thresholds
                  (detect_ayas_template page (default_thresh page),
                   Z.abs (Py.len (detect_ayas_template page (default_thresh page))
                          - expected page))) as Hsweep.
    pose proof (hough_calls_length page (expected page) [30; 28; 25]%Z
                  (swept page)) as Hhough.
    change (length sweep_thresholds) with 60%nat in Hsweep.
    cbn [length] in Hhough.
    destruct (_ =? _)%Z; cbn [length]; lia.
Qed.

Lemma nth_error_combine {A B : Type} (l : list A) (l' : list B) (k : nat) :
  nth_error (combine l l') k
  = match nth_error l k, nth_error l' k with
    | Some a, Some b => Some (a, b)
    | _, _ => None
    end.
Proof.
  revert l' k. induction l as [| a l IH]; intros [| b l'] [| k]; cbn;
    try reflexivity.
  - now destruct (nth_error l k).
  - apply IH.
Qed.

(** With at least as many markers as verses the issue branch emits the
    zipped pairs as well. *)
Lemma placeholder_rows_enough (page : Z) (expected_verses : list (Z * Z))
    (best_coords : list pixel) :
  (length expected_verses <= length best_coords)%nat ->
  placeholder_rows page expected_verses best_coords
  = zip_rows page expected_verses best_coords.
Proof.
  intros Henough. apply nth_error_ext. intros k.
  unfold placeholder_rows, zip_rows. unfold pixel in *.
  rewrite !nth_error_map, enumerate_nth_error, nth_error_combine.
  destruct (nth_error expected_verses k) as [[surah verse] |] eqn:Hk;
    [| reflexivity].
  assert (Hlt : (k < length best_coords)%nat).
  { assert (k < length expected_verses)%nat by (apply nth_error_Some; congruence).
    lia. }
  cbn [option_map]. destruct (Nat.ltb_spec k (length best_coords)); [| lia].
  unfold Py.item.
  destruct (nth_error best_coords k) as [[x y] |] eqn:Hc.
  - now rewrite (nth_error_nth _ _ _ Hc).
  - apply nth_error_None in Hc. lia.
Qed.

Lemma data_csv_zip_rows (page : Z) (expected_verses : list (Z * Z))
    (coords : list pixel) :
  data_csv (zip_rows page expected_verses coords)
  = normalized_rows page expected_verses coords.
Proof.
  unfold data_csv, zip_rows, normalized_rows. rewrite map_map.
  apply map_ext. now intros [[surah verse] [x y]].
Qed.

(** X16: the two scripts agree wherever calibration ends with at least as
    many markers as the page has verses, in particular on every page
    without an issue: the marker rows of [generate_verse_data.py] are then
    the rows [generate_data.py] writes to [data.csv]. *)
Theorem X16_datasets_agree_when_markers_suffice (page : Z) :
  (length (auth_verses page) <= length (fst (final page)))%nat ->
  fst (value (vd_page page)) = data_csv (fst (value (gd_page page))).
Proof.
  intros Henough.
  rewrite generate_data_page_value, generate_verse_data_page_value.
  cbn [fst].
  assert (Hpad : padding_rows page (auth_verses page) (fst (final page)) = []).
  { unfold padding_rows.
    replace (length (auth_verses page) - length (fst (final page)))%nat
      with 0%nat by lia.
    reflexivity. }
  rewrite Hpad, app_nil_r.
  destruct (_ =? _)%Z; cbn [fst].
  - now rewrite data_csv_zip_rows.
  - now rewrite placeholder_rows_enough, data_csv_zip_rows.
Qed.

Lemma zip_rows_identities (page : Z) (expected_verses : list (Z * Z))
    (coords : list pixel) :
  (length expected_verses <= length coords)%nat ->
  map row_identity (zip_rows page expected_verses coords)
  = map (fun '(surah, verse) => (surah, verse, page)) expected_verses.
Proof.
  intros Henough. apply nth_error_ext. intros k.
  unfold zip_rows. unfold pixel in *. rewrite !nth_error_map, nth_error_combine.
  destruct (nth_error expected_verses k) as [[surah verse] |] eqn:Hk;
    [| reflexivity].
  destruct (nth_error coords k) as [[x y] |] eqn:Hc; [reflexivity |].
  apply nth_error_None in Hc.
  assert (k < length expected_verses)%nat by (apply nth_error_Some; congruence).
  lia.
Qed.

Lemma placeholder_rows_identities (page : Z) (expected_verses : list (Z * Z))
    (best_coords : list pixel) :
  map row_identity (placeholder_rows page expected_verses best_coords)
  = map (fun '(surah, verse) => (surah, verse, page)) expected_verses.
Proof.
  apply nth_error_ext. intros k. unfold placeholder_rows.
  rewrite !nth_error_map, enumerate_nth_error.
  destruct (nth_error expected_verses k) as [[surah verse] |]; [| reflexivity].
  cbn [option_map]. now destruct (if (k <? _)%nat then _ else _).
Qed.

Lemma padded_rows_identities (page : Z) (expected_verses : list (Z * Z))
    (coords : list pixel) :
  map row_identity (normalized_rows page expected_verses coords
                      ++ padding_rows page expected_verses coords)
  = map (fun '(surah, verse) => (surah, verse, page)) expected_verses.
Proof.
  apply nth_error_ext. intros k. rewrite !nth_error_map.
  destruct (nth_error expected_verses k) as [[surah verse] |] eqn:Hk.
  - destruct (Nat.ltb_spec k (length coords)) as [Hlt | Hge].
    + assert (Hk' : (k < length expected_verses)%nat)
        by (apply nth_error_Some; congruence).
      rewrite nth_error_app1 by (rewrite normalized_rows_length; lia).
      unfold normalized_rows. unfold pixel in *.
      rewrite nth_error_map, nth_error_combine, Hk.
      destruct (nth_error coords k) as [[x y] |] eqn:Hc.
      * cbn [option_map]. now destruct (normalize_coordinates _ _ _).
      * apply nth_error_None in Hc. lia.
    + now rewrite (padding_rows_beyond _ _ _ _ _ _ Hk Hge).
  - apply nth_error_None in Hk.
    assert (Hnone : nth_error (normalized_rows page expected_verses coords
                                 ++ padding_rows page expected_verses coords) k
                    = None).
    { apply nth_error_None.
      rewrite length_app, normalized_rows_length, padding_rows_length. lia. }
    unfold marker_row in *. now rewrite Hnone.
Qed.

Lemma map_flat_map {A B C : Type} (g : B -> C) (f : A -> list B) (l : list A) :
  map g (flat_map f l) = flat_map (fun a => map g (f a)) l.
Proof.
  induction l as [| a l IH]; cbn [flat_map map]; [reflexivity |].
  now rewrite map_app, IH.
Qed.

(** X17: the verse identities of the output are exactly those of the
    authoritative mapping, in its order, whatever the detectors return:
    in both scripts the (surah, verse, page) triples of the marker rows
    of pages 1..604 are the authoritative lists of those pages, one after
    the other; detection decides coordinates only. *)
Theorem X17_identities_follow_the_mapping :
  map row_identity (fst (value gd_main))
    = flat_map (page_identities auth_verses) (Py.range 1 605 1) /\
  map row_identity (data_csv (fst (value gd_main)))
    = flat_map (page_identities auth_verses) (Py.range 1 605 1) /\
  map row_identity (fst (value vd_main))
    = flat_map (page_identities auth_verses) (Py.range 1 605 1).
Proof.
  assert (Hgd : forall page,
             map row_identity (fst (value (gd_page page)))
             = page_identities auth_verses page).
  { intros page. rewrite generate_data_page_value.
    pose proof (calibrated_tracks page) as Htracks.
    destruct (Z.eqb_spec (snd (final page)) 0) as [Hzero | _]; cbn [fst].
    - apply zip_rows_identities.
      rewrite (tracks_exact _ _ Htracks Hzero). apply le_n.
    - apply placeholder_rows_identities. }
  assert (Hvd : forall page,
             map row_identity (fst (value (vd_page page)))
             = page_identities auth_verses page).
  { intros page. rewrite generate_verse_data_page_value. cbn [fst].
    apply padded_rows_identities. }
  assert (Hcsv : forall rows : list raw_row,
             map row_identity (data_csv rows) = map row_identity rows).
  { intros rows. unfold data_csv. rewrite map_map. apply map_ext.
    intros [[[[surah verse] page] x] y].
    now destruct (normalize_coordinates _ _ _). }
  unfold generate_data_main, generate_verse_data_main.
  rewrite Hcsv, !page_loop_rows, !map_flat_map.
  repeat split; apply flat_map_ext; assumption.
Qed.

Lemma page_issues_shape (page : Z) :
  snd (value (gd_page page)) = [] \/
  exists got, snd (value (gd_page page)) = [(page, expected page, got)] /\
              got <> expected page.
Proof.
  rewrite generate_data_page_value.
  pose proof (calibrated_tracks page) as Htracks. unfold tracks in Htracks.
  destruct (Z.eqb_spec (snd (final page)) 0); cbn [snd]; [now left |].
  right. eexists. split; [reflexivity | lia].
Qed.

Lemma issues_sorted (f : Z -> list issue) (pages : list Z) :
  (forall page, f page = [] \/ exists e got, f page = [(page, e, got)]) ->
  StronglySorted Z.lt pages ->
  StronglySorted Z.lt (map issue_page (flat_map f pages)).
Proof.
  intros Hf. induction 1 as [| page pages Hsorted IH Hpage];
    cbn [flat_map map]; [constructor |].
  rewrite map_app.
  assert (Hrest : Forall (Z.lt page) (map issue_page (flat_map f pages))).
  { apply Forall_forall. intros p Hp. apply in_map_iff in Hp.
    destruct Hp as (i & <- & Hi). apply in_flat_map in Hi.
    destruct Hi as (q & Hq & Hi). rewrite Forall_forall in Hpage.
    specialize (Hpage q Hq).
    destruct (Hf q) as [Hnil | (e & got & Hone)].
    - rewrite Hnil in Hi. contradiction.
    - rewrite Hone in Hi. destruct Hi as [<- | []]. exact Hpage. }
  destruct (Hf page) as [-> | (e & got & ->)]; cbn [map app]; [exact IH |].
  now constructor.
Qed.

Lemma range_sorted (start stop : Z) : StronglySorted Z.lt (Py.range start stop 1).
Proof.
  rewrite range_step_1. generalize (Z.to_nat (stop - start)). intros n.
  generalize 0%nat. induction n as [| n IH]; intros k; cbn [seq map];
    constructor; [apply IH |].
  apply Forall_forall. intros z Hz. apply in_map_iff in Hz.
  destruct Hz as (j & <- & Hj). apply in_seq in Hj. lia.
Qed.

(** X18: the diagnostic list.  Both scripts end with the same [issues];
    it lists pages in increasing order, each at most once; a page 1..604
    is listed exactly when none of its detector runs is exact; and each
    entry holds the page, the authoritative verse count of the page and a
    detected count different from it. *)
Theorem X18_issues_list (page : Z) :
  snd (value vd_main) = snd (value gd_main) /\
  StronglySorted Z.lt (map issue_page (snd (value gd_main))) /\
  Forall (fun i => exists got, i = (issue_page i, expected (issue_page i), got)
                               /\ got <> expected (issue_page i)
                               /\ (1 <= issue_page i <= 604)%Z)
         (snd (value gd_main)) /\
  ((1 <= page <= 604)%Z ->
   (In page (map issue_page (snd (value gd_main)))
    <-> never_exact detect_ayas_template detect_ayas_hough auth_verses page)).
Proof.
  unfold generate_data_main, generate_verse_data_main.
  rewrite !page_loop_issues.
  assert (Hsame : forall p, snd (value (vd_page p)) = snd (value (gd_page p))).
  { intros p. rewrite generate_data_page_value, generate_verse_data_page_value.
    now destruct (_ =? _)%Z. }
  split; [apply flat_map_ext; exact Hsame |].
  split; [| split].
  - apply issues_sorted; [| apply range_sorted].
    intros p. destruct (page_issues_shape p) as [Hnil | (got & Hone & _)];
      [now left | right; now exists (expected p), got].
  - apply Forall_forall. intros i Hi. apply in_flat_map in Hi.
    destruct Hi as (p & Hp & Hi). apply range_In in Hp.
    destruct (page_issues_shape p) as [Hnil | (got & Hone & Hgot)].
    + rewrite Hnil in Hi. contradiction.
    + rewrite Hone in Hi. destruct Hi as [<- | []].
      exists got. unfold issue_page. cbn [fst]. repeat split; (exact Hgot || lia).
  - intros Hpage.
    pose proof (calibrated_inexact_iff page) as Hiff.
    assert (Hin : In page (Py.range 1 605 1)) by (apply range_In; lia).
    split.
    + intros Hlisted. apply in_map_iff in Hlisted.
      destruct Hlisted as (i & Hi & Hlisted). apply in_flat_map in Hlisted.
      destruct Hlisted as (p & _ & Hlisted).
      destruct (page_issues_shape p) as [Hnil | (got & Hone & Hgot)].
      * rewrite Hnil in Hlisted. contradiction.
      * rewrite Hone in Hlisted. destruct Hlisted as [<- | []].
        unfold issue_page in Hi. cbn [fst] in Hi. subst p.
        apply Hiff. intros Hzero.
        rewrite generate_data_page_value, Hzero in Hone. discriminate.
    + intros Hnever. apply Hiff in Hnever.
      apply in_map_iff.
      exists (page, expected page, Py.len (fst (final page))). split; [reflexivity |].
      apply in_flat_map. exists page. split; [exact Hin |].
      rewrite generate_data_page_value.
      destruct (Z.eqb_spec (snd (final page)) 0); [contradiction | now left].
Qed.

Lemma removelast_cons_Forall {A : Type} (P : A -> Prop) (a : A) (l : list A) :
  P a -> Forall P (removelast l) -> Forall P (removelast (a :: l)).
Proof.
  intros Ha Hl. destruct l as [| b l]; [constructor |].
  cbn [removelast] in *. now constructor.
Qed.

Lemma removelast_In {A : Type} (a : A) (l : list A) :
  In a (removelast l) -> In a l.
Proof.
  induction l as [| b [| c l] IH]; cbn [removelast]; intros H;
    [contradiction | contradiction |].
  destruct H as [<- | H]; [now left | right; now apply IH].
Qed.

Lemma sweep_calls_no_hough (page expected_count : Z) (thresholds : list Q)
    (best : list pixel * Z) (p p2 : Z) :
  ~ In (HoughCall p p2) (calls (run_sweep page expected_count thresholds best)).
Proof.
  revert best. induction thresholds as [| t ts IH]; intros best; cbn [sweep];
    [intros [] |].
  rewrite calls_bind. cbn [call_template calls value fst snd app].
  intros [Hin | Hin]; [discriminate Hin |]. revert Hin.
  destruct (_ <? _)%Z; [destruct (_ =? _)%Z |]; try apply IH. intros [].
Qed.

(** Inside the sweep every call but the last returned an inexact
    count. *)
Lemma sweep_calls_inexact (page expected_count : Z) (thresholds : list Q) :
  forall best,
    tracks expected_count best -> snd best <> 0%Z ->
    Forall (fun c => Py.len (call_result detect_ayas_template detect_ayas_hough c)
                     <> expected_count)
           (removelast (calls (run_sweep page expected_count thresholds best))).
Proof.
  induction thresholds as [| t thresholds IH]; intros best Htracks Hnz;
    cbn [sweep]; [constructor |].
  rewrite calls_bind. cbn [call_template calls value fst snd app].
  set (c := detect_ayas_template page t).
  set (d := Z.abs (Py.len c - expected_count)).
  assert (Hpos : (0 < snd best)%Z) by (unfold tracks in Htracks; lia).
  destruct (Z.eqb_spec d 0) as [Hzero | Hdnz].
  - destruct (Z.ltb_spec d (snd best)); [constructor | lia].
  - assert (Hc : Py.len (call_result detect_ayas_template detect_ayas_hough
                                     (TemplateCall page t)) <> expected_count).
    { cbn [call_result]. fold c. subst d. lia. }
    destruct (Z.ltb_spec d (snd best)); apply removelast_cons_Forall;
      try exact Hc; apply IH; (reflexivity || assumption).
Qed.

(** A sweep that ends inexact has tried every threshold, and each was
    inexact. *)
Lemma sweep_calls_full (page expected_count : Z) (thresholds : list Q) :
  forall best,
    tracks expected_count best ->
    snd (value (run_sweep page expected_count thresholds best)) <> 0%Z ->
    calls (run_sweep page expected_count thresholds best)
    = map (TemplateCall page) thresholds /\
    forall t, In t thresholds ->
      Py.len (detect_ayas_template page t) <> expected_count.
Proof.
  induction thresholds as [| t thresholds IH]; intros best Htracks;
    cbn [sweep]; [split; [reflexivity | intros t []] |].
  rewrite value_bind, calls_bind. cbn [call_template calls value fst snd app map].
  set (c := detect_ayas_template page t).
  set (d := Z.abs (Py.len c - expected_count)).
  destruct (Z.ltb_spec d (snd best)) as [Hless | Hmore].
  - destruct (Z.eqb_spec d 0) as [Hzero | Hdnz].
    + intros Hnz. exfalso. apply Hnz. exact Hzero.
    + intros Hnz. destruct (IH (c, d) eq_refl Hnz) as [Hcalls Hall].
      fold (calls (run_sweep page expected_count thresholds (c, d))).
      rewrite Hcalls. split; [reflexivity |].
      intros t' [<- | Hin]; [fold c; subst d; lia | now apply Hall].
  - intros Hnz. destruct (IH best Htracks Hnz) as [Hcalls Hall].
    fold (calls (run_sweep page expected_count thresholds best)).
    rewrite Hcalls. split; [reflexivity |].
    intros t' [<- | Hin]; [| now apply Hall].
    fold c. intros Hexact.
    assert (d = 0%Z) by (subst d; lia).
    assert (snd best = 0%Z) by (unfold tracks in Htracks; lia).
    apply Hnz.
    pose proof (sweep_minimal page expected_count thresholds best) as [Hle _].
    pose proof (sweep_tracks detect_ayas_template page expected_count
                  thresholds best Htracks) as Hres.
    unfold tracks in Hres. lia.
Qed.

Lemma hough_calls_inexact (page expected_count : Z) (param2s : list Z)
    (best : list pixel * Z) :
  Forall (fun c => Py.len (call_result detect_ayas_template detect_ayas_hough c)
                   <> expected_count)
         (removelast (calls (run_hough page expected_count param2s best))).
Proof.
  induction param2s as [| p2 param2s IH]; cbn [hough_fallback]; [constructor |].
  rewrite calls_bind. cbn [call_hough calls value fst snd app].
  destruct (Z.eqb_spec (Py.len (detect_ayas_hough page p2)) expected_count)
    as [_ | Hne]; [constructor |].
  apply removelast_cons_Forall; [exact Hne | exact IH].
Qed.

(** X19: calibration stops at the first exact count.  Among the detector
    calls of a page every call but the last returned a count different
    from the expected one; and the Hough detector is called only after
    the default threshold and all 60 thresholds of the sweep have been
    tried and found inexact. *)
Theorem X19_no_call_after_exact_match (page : Z) :
  Forall (fun c => Py.len (call_result detect_ayas_template detect_ayas_hough c)
                   <> expected page)
         (removelast (calls (gd_page page))) /\
  (forall p2, In (HoughCall page p2) (calls (gd_page page)) ->
     forall t, In t (default_thresh page :: sweep_thresholds) ->
       In (TemplateCall page t) (calls (gd_page page)) /\
       Py.len (detect_ayas_template page t) <> expected page).
Proof.
  rewrite generate_data_page_calls.
  set (coords := detect_ayas_template page (default_thresh page)).
  set (start := (coords, Z.abs (Py.len coords - expected page))).
  assert (Hswept : swept page = value (run_sweep page (expected page)
                                         sweep_thresholds start))
    by reflexivity.
  destruct (Z.eqb_spec (Py.len coords) (expected page)) as [Hexact | Hdefault].
  - split; [constructor |].
    intros p2 [Hin | []]. discriminate Hin.
  - assert (Hstart : snd start <> 0%Z) by (cbn [start snd]; lia).
    assert (Hc : Py.len (call_result detect_ayas_template detect_ayas_hough
                           (TemplateCall page (default_thresh page)))
                 <> expected page) by exact Hdefault.
    destruct (Z.eqb_spec (snd (swept page)) 0) as [Hzero | Hnz].
    + rewrite app_nil_r. split.
      * apply removelast_cons_Forall; [exact Hc |].
        now apply sweep_calls_inexact.
      * intros p2 [Hin | Hin]; [discriminate Hin |]. exfalso.
        now apply (sweep_calls_no_hough _ _ _ _ _ _ Hin).
    + rewrite Hswept in Hnz.
      destruct (sweep_calls_full page (expected page) sweep_thresholds start
                  eq_refl Hnz) as [Hcalls Hall].
      rewrite Hcalls. split.
      * apply removelast_cons_Forall; [exact Hc |].
        destruct (calls (run_hough page (expected page) [30; 28; 25]%Z (swept page)))
          as [| h hs] eqn:Hh.
        -- rewrite app_nil_r. apply Forall_forall. intros c' Hc'.
           assert (Hin' : In c' (map (TemplateCall page) sweep_thresholds))
             by now apply removelast_In.
           apply in_map_iff in Hin'. destruct Hin' as (t & <- & Ht).
           cbn [call_result]. now apply Hall.
        -- rewrite removelast_app by discriminate. apply Forall_app. split.
           ++ apply Forall_forall. intros c' Hc'. apply in_map_iff in Hc'.
              destruct Hc' as (t & <- & Ht). cbn [call_result]. now apply Hall.
           ++ rewrite <- Hh. apply hough_calls_inexact.
      * intros p2 _ t [<- | Hin].
        -- split; [now left | exact Hdefault].
        -- split; [| now apply Hall].
           right. apply in_or_app. left. now apply in_map.
Qed.

End CalibratorOutcome.

Lemma X14_sweep_keeps_the_closest_witness :
  (snd (best_after_sweep template_low_threshold two_verses 3)
   <= Z.abs (Py.len (template_low_threshold 3 (default_thresh 3))
             - Py.len (two_verses 3)))%Z.
Proof.
  apply (proj2 (proj2 (X14_sweep_keeps_the_closest
                         template_low_threshold two_verses 3))).
  left. reflexivity.
Defined.

Lemma X16_datasets_agree_when_markers_suffice_witness :
  fst (value (generate_verse_data_page template_exact hough_none two_verses 3))
  = data_csv
      (fst (value (generate_data_page template_exact hough_none two_verses 3))).
Proof.
  apply (X16_datasets_agree_when_markers_suffice
           template_exact hough_none two_verses 3).
  vm_compute. lia.
Defined.

Lemma X18_issues_list_witness :
  In 3%Z (map issue_page
            (snd (value (generate_data_main template_one_marker hough_none
                                            two_verses))))
  <-> never_exact template_one_marker hough_none two_verses 3.
Proof.
  apply (proj2 (proj2 (proj2 (X18_issues_list
                                template_one_marker hough_none two_verses 3)))).
  lia.
Defined.

Lemma X19_no_call_after_exact_match_witness :
  In (TemplateCall 3 (default_thresh 3))
     (calls (generate_data_page template_one_marker hough_at_28 two_verses 3)) /\
  Py.len (template_one_marker 3 (default_thresh 3)) <> Py.len (two_verses 3).
Proof.
  apply (proj2 (X19_no_call_after_exact_match
                  template_one_marker hough_at_28 two_verses 3) 30%Z).
  - vm_compute. do 61 right. left. reflexivity.
  - left. reflexivity.
Defined.

(* ================================================================= *)
(** ** More on point clustering *)









(* ================================================================= *)
(** ** Suppression of near-duplicate matches *)

Lemma FOP_snoc {A : Type} (R : A -> A -> Prop) (l : list A) (x : A) :
  ForallOrdPairs R l -> Forall (fun a => R a x) l ->
  ForallOrdPairs R (l ++ [x]).
Proof.
  induction 1 as [| a l Ha Hl IH]; intros Hx; cbn [app].
  - repeat constructor.
  - apply Forall_cons_iff in Hx. destruct Hx as [Hax Hx].
    constructor; [| now apply IH].
    apply Forall_app. split; [exact Ha | now repeat constructor].
Qed.

Lemma FOP_app_inv {A : Type} (R : A -> A -> Prop) (l l' : list A) :
  ForallOrdPairs R (l ++ l') ->
  ForallOrdPairs R l /\ ForallOrdPairs R l' /\
  (forall a b, In a l -> In b l' -> R a b).
Proof.
  induction l as [| a l IH]; cbn [app]; intros H.
  - repeat split; [constructor | exact H | contradiction].
  - inversion H as [| a' l0 Ha Hl]; subst.
    destruct (IH Hl) as (Hl1 & Hl2 & Hcross).
    apply Forall_app in Ha. destruct Ha as [Ha1 Ha2].
    repeat split; [now constructor | exact Hl2 |].
    intros a' b [<- | Hin] Hb; [| now apply Hcross].
    rewrite Forall_forall in Ha2. now apply Ha2.
Qed.

Lemma far_apart_sym (min_dist : Z) (l1 l2 : pixel) :
  far_apart min_dist l1 l2 = far_apart min_dist l2 l1.
Proof.
  unfold far_apart. f_equal. rewrite !Z.pow_2_r. ring.
Qed.

(** The suppression loop from any list of kept locations: it only
    appends, keeps the kept locations pairwise far, keeps only locations
    it was given, and gives every location it drops a kept location
    nearby. *)
Lemma keep_loop_invariant (min_dist : Z) (locations : list pixel) :
  forall distinct : list pixel,
    pairwise_far min_dist distinct ->
    exists added : list pixel,
      fold_left (fun distinct l1 =>
                   if forallb (far_apart min_dist l1) distinct
                   then distinct ++ [l1] else distinct)
                locations distinct
      = distinct ++ added /\
      pairwise_far min_dist (distinct ++ added) /\
      (forall l, In l added -> In l locations) /\
      (forall l, In l locations ->
         In l added \/
         exists kept, In kept (distinct ++ added) /\
                      far_apart min_dist l kept = false).
Proof.
  induction locations as [| l1 locations IH]; intros distinct Hfar;
    cbn [fold_left].
  - exists []. rewrite app_nil_r. repeat split; try assumption; intros l [].
  - destruct (forallb (far_apart min_dist l1) distinct) eqn:Hall.
    + assert (Hfar' : pairwise_far min_dist (distinct ++ [l1])).
      { apply FOP_snoc; [exact Hfar |]. apply Forall_forall. intros a Ha.
        rewrite forallb_forall in Hall. now apply Hall. }
      destruct (IH _ Hfar') as (added & Heq & Hpair & Hfrom & Hcover).
      exists (l1 :: added). rewrite <- app_assoc in Heq, Hpair. cbn [app] in *.
      repeat split; try assumption.
      * intros l [<- | Hl]; [now left | right; now apply Hfrom].
      * intros l [<- | Hl]; [left; now left |].
        destruct (Hcover l Hl) as [Hin | (kept & Hkept & Hnear)];
          [left; now right | right].
        exists kept. split; [| exact Hnear]. now rewrite <- app_assoc in Hkept.
    + destruct (IH _ Hfar) as (added & Heq & Hpair & Hfrom & Hcover).
      exists added. repeat split; try assumption.
      * intros l Hl. right. now apply Hfrom.
      * intros l [<- | Hl]; [| now apply Hcover].
        right.
        assert (Hex : existsb (fun k => negb (far_apart min_dist l1 k)) distinct
                      = true).
        { clear - Hall. induction distinct as [| k ks IHk]; [discriminate |].
          cbn [forallb existsb] in *.
          destruct (far_apart min_dist l1 k); cbn [negb andb orb] in *;
            [now apply IHk | reflexivity]. }
        apply existsb_exists in Hex. destruct Hex as (kept & Hkept & Hnear).
        exists kept. split; [apply in_or_app; now left |].
        now destruct (far_apart min_dist l1 kept).
Qed.

(** X22: what the suppression loop of [detect_ayas_template] keeps.  Any
    two kept locations are at least [min_dist] apart; every kept location
    is one of the candidates; the first candidate is always kept; and
    every candidate that is dropped is less than [min_dist] away from a
    kept one. *)
Theorem X22_suppression_keeps_far_points (min_dist : Z)
    (locations : list pixel) :
  pairwise_far min_dist (keep_distinct min_dist locations) /\
  (forall l, In l (keep_distinct min_dist locations) -> In l locations) /\
  hd_error (keep_distinct min_dist locations) = hd_error locations /\
  (forall l, In l locations ->
     In l (keep_distinct min_dist locations) \/
     exists kept, In kept (keep_distinct min_dist locations) /\
                  far_apart min_dist l kept = false).
Proof.
  unfold keep_distinct.
  destruct (keep_loop_invariant min_dist locations [] (FOP_nil _))
    as (added & Heq & Hpair & Hfrom & Hcover).
  cbn [app] in *. rewrite Heq.
  repeat split; try assumption.
  destruct locations as [| l1 locations]; cbn [fold_left forallb app] in Heq.
  - now subst added.
  - destruct (keep_loop_invariant min_dist locations [l1])
      as (added' & Heq' & _); [repeat constructor |].
    rewrite Heq' in Heq. now subst added.
Qed.

Lemma X22_suppression_keeps_far_points_witness :
  In (100, 200)%Z (keep_distinct 42 [(100, 200); (101, 200); (300, 200)]%Z) \/
  exists kept,
    In kept (keep_distinct 42 [(100, 200); (101, 200); (300, 200)]%Z) /\
    far_apart 42 (100, 200)%Z kept = false.
Proof.
  apply (proj2 (proj2 (proj2 (X22_suppression_keeps_far_points 42 _)))).
  left. reflexivity.
Defined.

Lemma keep_loop_fixed (min_dist : Z) (locations : list pixel) :
  forall distinct : list pixel,
    pairwise_far min_dist (distinct ++ locations) ->
    fold_left (fun distinct l1 =>
                 if forallb (far_apart min_dist l1) distinct
                 then distinct ++ [l1] else distinct)
              locations distinct
    = distinct ++ locations.
Proof.
  induction locations as [| l1 locations IH]; intros distinct Hfar;
    cbn [fold_left]; [now rewrite app_nil_r |].
  assert (Hall : forallb (far_apart min_dist l1) distinct = true).
  { apply forallb_forall. intros a Ha.
    destruct (FOP_app_inv _ _ _ Hfar) as (_ & _ & Hcross).
    apply Hcross; [exact Ha | now left]. }
  rewrite Hall, IH; rewrite <- app_assoc; [reflexivity | exact Hfar].
Qed.

(** X23: suppression is idempotent, and a list of locations that are
    already pairwise at least [min_dist] apart passes through it
    unchanged. *)
Theorem X23_suppression_idempotent (min_dist : Z) (locations : list pixel) :
  keep_distinct min_dist (keep_distinct min_dist locations)
  = keep_distinct min_dist locations /\
  (pairwise_far min_dist locations ->
   keep_distinct min_dist locations = locations).
Proof.
  assert (Hfixed : forall l, pairwise_far min_dist l ->
                             keep_distinct min_dist l = l).
  { intros l Hl. unfold keep_distinct. now rewrite keep_loop_fixed. }
  split; [| apply Hfixed].
  apply Hfixed. unfold keep_distinct.
  destruct (keep_loop_invariant min_dist locations [] (FOP_nil _))
    as (added & Heq & Hpair & _).
  now rewrite Heq.
Qed.

Lemma X23_suppression_idempotent_witness :
  keep_distinct 42 [(100, 200); (300, 200)]%Z = [(100, 200); (300, 200)]%Z.
Proof.
  apply (proj2 (X23_suppression_idempotent 42 _)).
  repeat constructor.
Defined.

Lemma group_and_sort_perm (points : list point) (g : Q) :
  Permutation points (group_and_sort points g).
Proof.
  unfold group_and_sort, row_groups.
  rewrite <- (concat_map_perm _ _ (sorted_perm (fun p : point => - fst p))).
  rewrite formed_groups_concat. apply sorted_perm.
Qed.

Lemma FOP_impl {A : Type} (R S : A -> A -> Prop) (l : list A) :
  (forall a b, R a b -> S a b) -> ForallOrdPairs R l -> ForallOrdPairs S l.
Proof.
  intros HRS. induction 1 as [| a l Ha Hl IH]; constructor; [| exact IH].
  eapply Forall_impl; [| exact Ha]. intros b. apply HRS.
Qed.

Lemma far_apart_distance (min_dist : Z) (l1 l2 : pixel) :
  (0 < min_dist)%Z -> far_apart min_dist l1 l2 = true ->
  inject_Z (min_dist * min_dist)
  <= squared_distance (pixel_point l1) (pixel_point l2).
Proof.
  intros Hpos Hfar. unfold far_apart, sqrt_ge in Hfar.
  apply orb_true_iff in Hfar. destruct Hfar as [Hle | Hle];
    [apply Z.leb_le in Hle; lia |].
  apply Z.leb_le in Hle. rewrite !Z.pow_2_r in Hle.
  unfold squared_distance, pixel_point. cbn [fst snd].
  rewrite (Zle_Qle _ _) in Hle.
  rewrite inject_Z_plus, !inject_Z_mult in Hle.
  unfold Z.sub in Hle. rewrite !inject_Z_plus, !inject_Z_opp in Hle.
  rewrite inject_Z_mult. unfold Qminus. exact Hle.
Qed.

Lemma far_apart_distinct (min_dist : Z) (l1 l2 : pixel) :
  (0 < min_dist)%Z -> far_apart min_dist l1 l2 = true -> l1 <> l2.
Proof.
  intros Hpos Hfar ->. unfold far_apart, sqrt_ge in Hfar.
  rewrite !Z.sub_diag in Hfar. cbn in Hfar.
  apply orb_true_iff in Hfar.
  destruct Hfar as [Hle | Hle]; apply Z.leb_le in Hle; nia.
Qed.

Lemma pixel_point_injective (l1 l2 : pixel) :
  pixel_point l1 = pixel_point l2 -> l1 = l2.
Proof.
  destruct l1 as [x1 y1], l2 as [x2 y2]. unfold pixel_point. cbn [fst snd].
  unfold inject_Z. intros H. now inversion H.
Qed.

Lemma keep_loop_length (min_dist : Z) (locations : list pixel) :
  forall distinct : list pixel,
    le (length (fold_left (fun distinct l1 =>
                             if forallb (far_apart min_dist l1) distinct
                             then distinct ++ [l1] else distinct)
                          locations distinct))
       (length distinct + length locations).
Proof.
  induction locations as [| l1 locations IH]; intros distinct;
    cbn [fold_left length]; [lia |].
  destruct (forallb (far_apart min_dist l1) distinct).
  - specialize (IH (distinct ++ [l1])). rewrite length_app in IH.
    cbn [length] in IH. lia.
  - specialize (IH distinct). lia.
Qed.

Lemma keep_distinct_far (min_dist : Z) (locations : list pixel) :
  pairwise_far min_dist (keep_distinct min_dist locations).
Proof.
  unfold keep_distinct.
  destruct (keep_loop_invariant min_dist locations [] (FOP_nil _))
    as (added & Heq & Hpair & _).
  now rewrite Heq.
Qed.

(** X24: what [detect_ayas_template] returns.  An unreadable page image
    gives no marker.  Otherwise the markers are the kept match locations,
    reordered by [group_and_sort]: there are no more markers than
    candidate locations, and for a template of positive size no marker is
    returned twice and any two markers are at least
    [min_dist = max(th, tw)] apart. *)
Theorem X24_template_markers_far_apart (th tw : Z) (locations : list pixel) :
  detect_ayas_template_from th tw None = [] /\
  Permutation (map pixel_point (keep_distinct (Z.max th tw) locations))
              (detect_ayas_template_from th tw (Some locations)) /\
  le (length (detect_ayas_template_from th tw (Some locations)))
     (length locations) /\
  ((0 < Z.max th tw)%Z ->
   NoDup (detect_ayas_template_from th tw (Some locations)) /\
   forall p q,
     In p (detect_ayas_template_from th tw (Some locations)) ->
     In q (detect_ayas_template_from th tw (Some locations)) ->
     p <> q ->
     inject_Z (Z.max th tw * Z.max th tw) <= squared_distance p q).
Proof.
  set (min_dist := Z.max th tw).
  assert (Hperm : Permutation
                    (map pixel_point (keep_distinct min_dist locations))
                    (detect_ayas_template_from th tw (Some locations))).
  { cbn [detect_ayas_template_from]. apply group_and_sort_perm. }
  split; [reflexivity |]. split; [exact Hperm |]. split.
  - rewrite <- (Permutation_length Hperm), length_map.
    apply (keep_loop_length min_dist locations []).
  - intros Hpos.
    pose proof (keep_distinct_far min_dist locations) as Hfar.
    split.
    + apply (Permutation_NoDup Hperm).
      apply Finite.Injective_map_NoDup;
        [intros a b; apply pixel_point_injective |].
      apply NoDup_iff_ForallOrdPairs.
      eapply FOP_impl; [| exact Hfar].
      intros a b Hab ->. now apply (far_apart_distinct min_dist b b).
    + intros p q Hp Hq Hne.
      apply (Permutation_in _ (Permutation_sym Hperm)) in Hp, Hq.
      apply in_map_iff in Hp, Hq.
      destruct Hp as (a & <- & Ha), Hq as (b & <- & Hb).
      destruct (ForallOrdPairs_In Hfar a b Ha Hb) as [-> | [Hab | Hab]];
        [now elim Hne | |].
      * rewrite far_apart_sym in Hab. now apply far_apart_distance.
      * now apply far_apart_distance.
Qed.

Lemma X24_template_markers_far_apart_witness :
  NoDup (detect_ayas_template_from 40 42
           (Some [(100, 200); (101, 200); (300, 200)]%Z)) /\
  forall p q,
    In p (detect_ayas_template_from 40 42
            (Some [(100, 200); (101, 200); (300, 200)]%Z)) ->
    In q (detect_ayas_template_from 40 42
            (Some [(100, 200); (101, 200); (300, 200)]%Z)) ->
    p <> q ->
    inject_Z (Z.max 40 42 * Z.max 40 42) <= squared_distance p q.
Proof.
  apply (proj2 (proj2 (proj2
           (X24_template_markers_far_apart 40 42
              [(100, 200); (101, 200); (300, 200)]%Z)))).
  reflexivity.
Defined.

(* ================================================================= *)
(** ** The page-verse mapping of [fetch_page_verses.py] *)

Lemma verse_eqb_eq (v w : verse) : verse_eqb v w = true <-> v = w.
Proof.
  destruct v as [s1 v1], w as [s2 v2]. unfold verse_eqb. cbn [fst snd].
  rewrite andb_true_iff, !Z.eqb_eq. split.
  - now intros [-> ->].
  - intros H. now inversion H.
Qed.

Lemma seen_In (v : verse) (seen : list verse) :
  existsb (verse_eqb v) seen = true <-> In v seen.
Proof.
  rewrite existsb_exists. split.
  - intros (w & Hw & Heq). apply verse_eqb_eq in Heq. now subst.
  - intros Hv. exists v. split; [exact Hv | now apply verse_eqb_eq].
Qed.

Lemma dedup_loop (verses : list verse) :
  forall seen unique,
    snd (fold_left dedup_step verses (seen, unique))
    = unique ++ first_occurrences seen verses.
Proof.
  induction verses as [| v verses IH]; intros seen unique;
    cbn [fold_left first_occurrences dedup_step];
    [now rewrite app_nil_r |].
  destruct (existsb (verse_eqb v) seen); rewrite IH; [reflexivity |].
  now rewrite <- app_assoc.
Qed.

Lemma deduplicate_first_occurrences (verses : list verse) :
  deduplicate verses = first_occurrences [] verses.
Proof. unfold deduplicate. now rewrite dedup_loop. Qed.

Lemma first_occurrences_In (verses : list verse) :
  forall seen v,
    In v (first_occurrences seen verses) <-> In v verses /\ ~ In v seen.
Proof.
  induction verses as [| w verses IH]; intros seen v;
    cbn [first_occurrences]; [cbn; tauto |].
  destruct (existsb (verse_eqb w) seen) eqn:Hseen.
  - apply seen_In in Hseen. rewrite IH. cbn [In]. split.
    + intros [Hin Hnot]. split; [now right | exact Hnot].
    + intros [[<- | Hin] Hnot]; [contradiction | now split].
  - assert (Hnot : ~ In w seen).
    { intros Hin. apply seen_In in Hin. congruence. }
    cbn [In]. rewrite IH. cbn [In]. split.
    + intros [<- | [Hin Hnew]]; [split; [now left | exact Hnot] |].
      split; [now right | tauto].
    + intros [[<- | Hin] Hnew]; [now left |].
      destruct (verse_eqb w v) eqn:Heq.
      * apply verse_eqb_eq in Heq. now left.
      * right. split; [exact Hin |]. intros [-> | Hs]; [| contradiction].
        assert (verse_eqb v v = true) by now apply verse_eqb_eq.
        congruence.
Qed.

Lemma first_occurrences_NoDup (verses : list verse) :
  forall seen, NoDup (first_occurrences seen verses).
Proof.
  induction verses as [| w verses IH]; intros seen;
    cbn [first_occurrences]; [constructor |].
  destruct (existsb (verse_eqb w) seen); [apply IH |].
  constructor; [| apply IH].
  rewrite first_occurrences_In. cbn [In]. tauto.
Qed.

Lemma first_occurrences_fixed (verses : list verse) :
  forall seen,
    NoDup verses -> (forall v, In v verses -> ~ In v seen) ->
    first_occurrences seen verses = verses.
Proof.
  induction verses as [| w verses IH]; intros seen Hnd Hnew;
    cbn [first_occurrences]; [reflexivity |].
  inversion Hnd as [| w' l Hw Hrest]; subst.
  destruct (existsb (verse_eqb w) seen) eqn:Hseen.
  - apply seen_In in Hseen. now elim (Hnew w (or_introl eq_refl)).
  - rewrite IH; [reflexivity | exact Hrest |].
    intros v Hv [<- | Hs]; [contradiction |].
    now apply (Hnew v (or_intror Hv)).
Qed.

Lemma first_occurrences_sorted (R : verse -> verse -> Prop)
    (verses : list verse) :
  forall seen,
    StronglySorted R verses ->
    StronglySorted R (first_occurrences seen verses).
Proof.
  induction verses as [| w verses IH]; intros seen Hs;
    cbn [first_occurrences]; [constructor |].
  inversion Hs as [| w' l Hrest Hall]; subst.
  destruct (existsb (verse_eqb w) seen); [now apply IH |].
  constructor; [now apply IH |].
  rewrite Forall_forall in *. intros v Hv. apply Hall.
  now apply first_occurrences_In in Hv.
Qed.

Lemma first_occurrences_head (verses : list verse) :
  hd_error (first_occurrences [] verses) = hd_error verses.
Proof. now destruct verses. Qed.

(** X25: the deduplication loop.  Its result holds no verse twice and the
    same verses as its input, starts with the same verse, leaves a list
    without repetition unchanged, and is idempotent. *)
Theorem X25_deduplicate (verses : list verse) :
  NoDup (deduplicate verses) /\
  (forall v, In v (deduplicate verses) <-> In v verses) /\
  hd_error (deduplicate verses) = hd_error verses /\
  (NoDup verses -> deduplicate verses = verses) /\
  deduplicate (deduplicate verses) = deduplicate verses.
Proof.
  rewrite !deduplicate_first_occurrences.
  split; [apply first_occurrences_NoDup |].
  split; [intros v; rewrite first_occurrences_In; cbn [In]; tauto |].
  split; [apply first_occurrences_head |].
  split.
  - intros Hnd. now apply first_occurrences_fixed.
  - apply first_occurrences_fixed; [apply first_occurrences_NoDup |].
    intros v _ [].
Qed.

Lemma X25_deduplicate_witness :
  deduplicate [(2, 1); (2, 2); (2, 3)]%Z = [(2, 1); (2, 2); (2, 3)]%Z.
Proof.
  apply (proj1 (proj2 (proj2 (proj2
           (X25_deduplicate [(2, 1); (2, 2); (2, 3)]%Z))))).
  repeat constructor; cbn [In]; intros H;
    repeat (destruct H as [H | H]; [discriminate H |]); exact H.
Defined.

Lemma surah_verses_In (surah start stop : Z) (v : verse) :
  In v (map (pair surah) (Py.range start stop 1))
  <-> fst v = surah /\ (start <= snd v < stop)%Z.
Proof.
  rewrite in_map_iff. split.
  - intros (z & <- & Hz). apply range_In in Hz. now split.
  - intros [Hs Hv]. exists (snd v). split; [| now apply range_In].
    destruct v as [s n]. cbn [fst snd] in *. now subst.
Qed.

Lemma surah_verses_sorted (surah start stop : Z) :
  StronglySorted verse_lt (map (pair surah) (Py.range start stop 1)).
Proof.
  pose proof (range_sorted start stop) as Hs.
  induction Hs as [| z l Hl IH Hall]; cbn [map]; constructor; [exact IH |].
  rewrite Forall_forall in *. intros v Hv. apply in_map_iff in Hv.
  destruct Hv as (w & <- & Hw). right. cbn [fst snd].
  split; [reflexivity | now apply Hall].
Qed.

Lemma verse_lt_NoDup (verses : list verse) :
  StronglySorted verse_lt verses -> NoDup verses.
Proof.
  induction 1 as [| v l Hl IH Hall]; constructor; [| exact IH].
  intros Hin. rewrite Forall_forall in Hall. specialize (Hall v Hin).
  unfold verse_lt in Hall. lia.
Qed.

Lemma surah_count_lookup (s_surah : Z) :
  (-113 <= s_surah <= 114)%Z ->
  list_item SURAH_VERSE_COUNTS (s_surah - 1)
  = Some (nth (Z.to_nat ((s_surah - 1) mod 114)) SURAH_VERSE_COUNTS 0%Z).
Proof.
  intros Hs. unfold list_item.
  change (Py.len SURAH_VERSE_COUNTS) with 114%Z.
  destruct (0 <=? s_surah - 1)%Z eqn:Hpos.
  - apply Z.leb_le in Hpos. rewrite Z.mod_small by lia.
    apply nth_error_nth'. change (length SURAH_VERSE_COUNTS) with 114%nat. lia.
  - apply Z.leb_gt in Hpos.
    replace (- (114) <=? s_surah - 1)%Z with true
      by (symmetry; apply Z.leb_le; lia).
    rewrite <- (Z.mod_add (s_surah - 1) 1 114) by lia.
    rewrite Z.mod_small by lia.
    replace (s_surah - 1 + 1 * 114)%Z with (114 + (s_surah - 1))%Z by lia.
    apply nth_error_nth'. change (length SURAH_VERSE_COUNTS) with 114%nat. lia.
Qed.

Lemma surah_count_missing (s_surah : Z) :
  (s_surah < -113 \/ 114 < s_surah)%Z ->
  list_item SURAH_VERSE_COUNTS (s_surah - 1) = None.
Proof.
  intros Hs. unfold list_item.
  change (Py.len SURAH_VERSE_COUNTS) with 114%Z.
  destruct (0 <=? s_surah - 1)%Z eqn:Hpos.
  - apply Z.leb_le in Hpos. apply nth_error_None.
    change (length SURAH_VERSE_COUNTS) with 114%nat. lia.
  - apply Z.leb_gt in Hpos.
    replace (- (114) <=? s_surah - 1)%Z with false; [reflexivity |].
    symmetry. apply Z.leb_gt. lia.
Qed.

(** X26: the verses of one line.  A line inside one surah gives the
    verses from [s_verse] to [e_verse] of that surah, in order, whatever
    the numbers are (none when [e_verse < s_verse]).  A line from one
    surah into another raises for a start surah above 114 or below -113;
    otherwise it gives the verses of the start surah from [s_verse] up to
    the count looked up for it (for a start surah 0 or below, the count of
    a surah counted from the end of the table) and the verses 1 to
    [e_verse] of the end surah, and no verse of any other surah. *)
Theorem X26_line_verses (s_surah s_verse e_surah e_verse : Z) :
  (s_surah = e_surah ->
   exists verses,
     line_verses (s_surah, s_verse, e_surah, e_verse) = Some verses /\
     StronglySorted verse_lt verses /\
     forall v, In v verses <->
               fst v = s_surah /\ (s_verse <= snd v <= e_verse)%Z) /\
  (s_surah <> e_surah -> (s_surah < -113 \/ 114 < s_surah)%Z ->
   line_verses (s_surah, s_verse, e_surah, e_verse) = None) /\
  (s_surah <> e_surah -> (-113 <= s_surah <= 114)%Z ->
   exists verses,
     line_verses (s_surah, s_verse, e_surah, e_verse) = Some verses /\
     forall v,
       In v verses <->
       (fst v = s_surah /\
        (s_verse <= snd v
         <= nth (Z.to_nat ((s_surah - 1) mod 114)) SURAH_VERSE_COUNTS 0)%Z) \/
       (fst v = e_surah /\ (1 <= snd v <= e_verse)%Z)).
Proof.
  unfold line_verses. split; [| split].
  - intros <-. rewrite Z.eqb_refl. eexists. split; [reflexivity |].
    split; [apply surah_verses_sorted |].
    intros v. rewrite surah_verses_In. lia.
  - intros Hne Hs. apply Z.eqb_neq in Hne. rewrite Hne.
    now rewrite surah_count_missing.
  - intros Hne Hs. apply Z.eqb_neq in Hne. rewrite Hne.
    rewrite surah_count_lookup by exact Hs.
    eexists. split; [reflexivity |].
    intros v. rewrite in_app_iff, !surah_verses_In. lia.
Qed.

Lemma X26_line_verses_witness :
  (exists verses,
     line_verses (2, 5, 2, 7)%Z = Some verses /\
     StronglySorted verse_lt verses /\
     forall v, In v verses <-> fst v = 2%Z /\ (5 <= snd v <= 7)%Z) /\
  line_verses (115, 1, 116, 2)%Z = None /\
  (exists verses,
     line_verses (1, 6, 2, 3)%Z = Some verses /\
     forall v,
       In v verses <->
       (fst v = 1%Z /\
        (6 <= snd v
         <= nth (Z.to_nat ((1 - 1) mod 114)) SURAH_VERSE_COUNTS 0)%Z) \/
       (fst v = 2%Z /\ (1 <= snd v <= 3)%Z)).
Proof.
  split; [| split].
  - apply (proj1 (X26_line_verses 2 5 2 7)). reflexivity.
  - apply (proj1 (proj2 (X26_line_verses 115 1 116 2))); lia.
  - apply (proj2 (proj2 (X26_line_verses 1 6 2 3))); lia.
Defined.

Lemma collect_verses_raises (lines : list (option verse_range)) :
  forall verses,
    collect_verses lines verses = None <->
    exists vr, In (Some vr) lines /\ line_verses vr = None.
Proof.
  induction lines as [| [vr |] lines IH]; intros verses;
    cbn [collect_verses].
  - split; [discriminate | intros (vr & [] & _)].
  - destruct (line_verses vr) as [added |] eqn:Hline.
    + rewrite IH. split.
      * intros (vr' & Hin & Hnone). exists vr'. split; [now right | exact Hnone].
      * intros (vr' & [Heq | Hin] & Hnone); [| now exists vr'].
        injection Heq as ->. congruence.
    + split; [| reflexivity]. intros _. exists vr. split; [now left | exact Hline].
  - rewrite IH. split.
    + intros (vr' & Hin & Hnone). exists vr'. split; [now right | exact Hnone].
    + intros (vr' & [Heq | Hin] & Hnone); [discriminate | now exists vr'].
Qed.

Lemma collect_verses_In (lines : list (option verse_range)) :
  forall verses collected,
    collect_verses lines verses = Some collected ->
    forall v,
      In v collected <->
      In v verses \/
      exists vr added,
        In (Some vr) lines /\ line_verses vr = Some added /\ In v added.
Proof.
  induction lines as [| [vr |] lines IH]; intros verses collected Hc v;
    cbn [collect_verses] in Hc.
  - injection Hc as <-. split; [now left |].
    intros [Hv | (vr & added & [] & _)]. exact Hv.
  - destruct (line_verses vr) as [added |] eqn:Hline; [| discriminate].
    rewrite (IH _ _ Hc), in_app_iff. split.
    + intros [[Hv | Hv] | (vr' & added' & Hin & Hl & Hv)].
      * now left.
      * right. exists vr, added. repeat split; [now left | | ]; assumption.
      * right. exists vr', added'. repeat split; [now right | | ]; assumption.
    + intros [Hv | (vr' & added' & [Heq | Hin] & Hl & Hv)].
      * left. now left.
      * injection Heq as ->. left. right. congruence.
      * right. now exists vr', added'.
  - rewrite (IH _ _ Hc). split.
    + intros [Hv | (vr' & added' & Hin & Hl & Hv)]; [now left |].
      right. exists vr', added'. repeat split; [now right | | ]; assumption.
    + intros [Hv | (vr' & added' & [Heq | Hin] & Hl & Hv)];
        [now left | discriminate |].
      right. now exists vr', added'.
Qed.

(** X27: the verses of a page.  A page has no result exactly when one of
    its lines raises; lines without a verse range never matter.
    Otherwise the page's list holds no verse twice, and a verse is in it
    exactly when some line of the page contributes it. *)
Theorem X27_page_verses (lines : list (option verse_range)) :
  (fetch_page (Some lines) = None <->
   exists vr, In (Some vr) lines /\ line_verses vr = None) /\
  fetch_page (Some (filter (fun line => match line with
                                       | Some _ => true
                                       | None => false
                                       end) lines))
  = fetch_page (Some lines) /\
  forall unique,
    fetch_page (Some lines) = Some unique ->
    NoDup unique /\
    forall v,
      In v unique <->
      exists vr added,
        In (Some vr) lines /\ line_verses vr = Some added /\ In v added.
Proof.
  cbn [fetch_page]. split; [| split].
  - rewrite <- (collect_verses_raises lines []).
    destruct (collect_verses lines []); cbn [option_map];
      split; congruence.
  - f_equal. generalize (@nil verse).
    induction lines as [| [vr |] lines IH]; intros verses;
      cbn [filter collect_verses]; [reflexivity | | apply IH].
    destruct (line_verses vr); [apply IH | reflexivity].
  - intros unique Hpage.
    destruct (collect_verses lines []) as [collected |] eqn:Hc;
      [| discriminate].
    cbn [option_map] in Hpage. injection Hpage as <-.
    rewrite deduplicate_first_occurrences.
    split; [apply first_occurrences_NoDup |].
    intros v. rewrite first_occurrences_In, (collect_verses_In _ _ _ Hc).
    cbn [In]. tauto.
Qed.

Lemma X27_page_verses_witness :
  NoDup [(2, 1); (2, 2); (2, 3)]%Z /\
  forall v,
    In v [(2, 1); (2, 2); (2, 3)]%Z <->
    exists vr added,
      In (Some vr) [Some (2, 1, 2, 2); None; Some (2, 2, 2, 3)]%Z /\
      line_verses vr = Some added /\ In v added.
Proof.
  apply (proj2 (proj2
           (X27_page_verses [Some (2, 1, 2, 2); None; Some (2, 2, 2, 3)]%Z))).
  reflexivity.
Defined.

Lemma verse_le_lt (verses : list verse) :
  StronglySorted verse_le verses -> NoDup verses ->
  StronglySorted verse_lt verses.
Proof.
  induction 1 as [| v l Hl IH Hall]; intros Hnd; constructor.
  - apply IH. now inversion Hnd.
  - inversion Hnd as [| v' l' Hv Hrest]; subst.
    rewrite Forall_forall in *. intros w Hw. specialize (Hall w Hw).
    assert (Hne : v <> w) by (intros ->; contradiction).
    destruct v as [s1 n1], w as [s2 n2].
    unfold verse_le, verse_lt in *. cbn [fst snd] in *.
    destruct Hall as [Hlt | [-> Hle]]; [now left | right].
    split; [reflexivity |].
    assert (n1 <> n2) by congruence. lia.
Qed.

(** X28: reading order.  When the verses contributed by the lines of a
    page, taken line after line, never go backwards (a verse that
    continues on the next line is repeated there), the page's list is in
    strictly increasing reading order. *)
Theorem X28_page_in_reading_order (lines : list (option verse_range))
    (collected : list verse) :
  collect_verses lines [] = Some collected ->
  StronglySorted verse_le collected ->
  exists unique,
    fetch_page (Some lines) = Some unique /\
    StronglySorted verse_lt unique /\
    hd_error unique = hd_error collected /\
    (forall v, In v unique <-> In v collected).
Proof.
  intros Hc Hsorted. cbn [fetch_page]. rewrite Hc. cbn [option_map].
  exists (deduplicate collected). split; [reflexivity |].
  rewrite deduplicate_first_occurrences.
  split; [| split].
  - apply verse_le_lt;
      [now apply first_occurrences_sorted | apply first_occurrences_NoDup].
  - apply first_occurrences_head.
  - intros v. rewrite first_occurrences_In. cbn [In]. tauto.
Qed.

Lemma X28_page_in_reading_order_witness :
  exists unique,
    fetch_page (Some [Some (1, 6, 2, 2); None; Some (2, 2, 2, 4)]%Z)
    = Some unique /\
    StronglySorted verse_lt unique /\
    hd_error unique
    = hd_error [(1, 6); (1, 7); (2, 1); (2, 2); (2, 2); (2, 3); (2, 4)]%Z /\
    (forall v,
       In v unique <->
       In v [(1, 6); (1, 7); (2, 1); (2, 2); (2, 2); (2, 3); (2, 4)]%Z).
Proof.
  apply (X28_page_in_reading_order
           [Some (1, 6, 2, 2); None; Some (2, 2, 2, 4)]%Z).
  - reflexivity.
  - repeat first [apply SSorted_nil | apply SSorted_cons
                 | apply Forall_nil | apply Forall_cons];
      unfold verse_le; cbn [fst snd]; lia.
Defined.

Section FetchMain.

Variable download : Z -> option (list (option verse_range)).

Local Abbreviation fetched :=
  (fun page : Z => fetch_page (download page)).

Local Abbreviation failed_page :=
  (fun page : Z => match fetch_page (download page) with
                   | Some _ => false
                   | None => true
                   end).

Local Abbreviation page_entry :=
  (fun page : Z => match fetch_page (download page) with
                   | Some unique => [(page, unique)]
                   | None => []
                   end).

Lemma dict_set_new {V : Type} (d : list (Z * V)) (k : Z) (v : V) :
  ~ In k (map fst d) -> dict_set d k v = d ++ [(k, v)].
Proof.
  induction d as [| [k' v'] d IH]; intros Hnew; cbn [dict_set app];
    [reflexivity |].
  cbn [map fst In] in Hnew.
  destruct (k' =? k)%Z eqn:Heq; [apply Z.eqb_eq in Heq; tauto |].
  rewrite IH by tauto. reflexivity.
Qed.

Lemma page_entries_keys (pages : list Z) (k : Z) :
  In k (map fst (flat_map page_entry pages)) -> In k pages.
Proof.
  induction pages as [| page pages IH]; cbn [flat_map]; [intros [] |].
  rewrite map_app, in_app_iff. intros [Hk | Hk]; [| right; now apply IH].
  left. destruct (fetch_page (download page)); [| destruct Hk].
  cbn [map fst In] in Hk. tauto.
Qed.

Lemma fetch_loop (pages : list Z) :
  NoDup pages ->
  forall page_verses errors,
    (forall page, In page pages -> ~ In page (map fst page_verses)) ->
    fold_left (fetch_step download) pages (page_verses, errors)
    = (page_verses ++ flat_map page_entry pages,
       errors ++ filter failed_page pages).
Proof.
  induction 1 as [| page pages Hnew Hnd IH]; intros page_verses errors Hkeys;
    cbn [fold_left flat_map filter fetch_step].
  - now rewrite !app_nil_r.
  - destruct (fetch_page (download page)) as [unique |] eqn:Hpage.
    + rewrite dict_set_new by (apply Hkeys; now left).
      rewrite IH, <- app_assoc; [reflexivity |].
      intros p Hp. rewrite map_app, in_app_iff. cbn [map fst In].
      intros [Hin | [<- | []]]; [| contradiction].
      now apply (Hkeys p (or_intror Hp)).
    + rewrite IH, <- app_assoc; [reflexivity |].
      intros p Hp. apply Hkeys. now right.
Qed.

Lemma page_entries_all (pages : list Z) :
  filter failed_page pages = [] ->
  map fst (flat_map page_entry pages) = pages /\
  forall page unique,
    In (page, unique) (flat_map page_entry pages) ->
    fetch_page (download page) = Some unique.
Proof.
  induction pages as [| page pages IH]; cbn [filter flat_map map];
    [intros _; split; [reflexivity | intros ? ? []] |].
  destruct (fetch_page (download page)) as [unique |] eqn:Hpage;
    [| discriminate].
  intros Hnone. destruct (IH Hnone) as [Hkeys Hall].
  cbn [app map fst]. rewrite Hkeys. split; [reflexivity |].
  intros p u [Heq | Hin]; [| now apply Hall].
  injection Heq as <- <-. exact Hpage.
Qed.

(** X29: [main] saves all pages or nothing.  When some page fails, [main]
    exits after the loop with the failed pages in page order, and saves
    nothing.  When none fails, the saved mapping has one entry for each of
    the pages 1 to 604, in page order, each holding that page's list with
    no verse twice; the total is the sum of their lengths, and the warning
    is printed exactly when it differs from 6236. *)
Theorem X29_main_saves_all_or_nothing :
  let failed := filter failed_page (Py.range 1 605 1) in
  (failed <> [] -> fetch_main download = Exit failed) /\
  (failed = [] ->
   exists page_verses total,
     fetch_main download
     = Saved page_verses total (negb (total =? 6236)%Z) /\
     map fst page_verses = Py.range 1 605 1 /\
     (forall page unique,
        In (page, unique) page_verses ->
        fetch_page (download page) = Some unique /\ NoDup unique) /\
     total = fold_right Z.add 0%Z
               (map (fun kv => Py.len (snd kv)) page_verses)).
Proof.
  intros failed. unfold fetch_main.
  rewrite fetch_loop; [| apply range_NoDup | intros page _ []].
  cbn [app]. fold failed. split.
  - intros Hfailed. destruct failed; [congruence | reflexivity].
  - intros Hnone. rewrite Hnone.
    destruct (page_entries_all _ Hnone) as [Hkeys Hall].
    eexists; eexists. split; [reflexivity |].
    split; [exact Hkeys |]. split; [| reflexivity].
    intros page unique Hin. pose proof (Hall page unique Hin) as Hpage.
    split; [exact Hpage |].
    destruct (download page) as [lines |]; [| discriminate].
    cbn [fetch_page] in Hpage.
    destruct (collect_verses lines []) as [collected |]; [| discriminate].
    cbn [option_map] in Hpage. injection Hpage as <-.
    rewrite deduplicate_first_occurrences. apply first_occurrences_NoDup.
Qed.

End FetchMain.

Lemma X29_main_saves_all_or_nothing_witness :
  fetch_main (fun page => if (page =? 7)%Z then None else Some [])
  = Exit [7%Z] /\
  exists page_verses total,
    fetch_main (fun page => Some [Some (1, page, 1, page)%Z])
    = Saved page_verses total (negb (total =? 6236)%Z) /\
    map fst page_verses = Py.range 1 605 1 /\
    (forall page unique,
       In (page, unique) page_verses ->
       fetch_page (Some [Some (1, page, 1, page)%Z]) = Some unique /\
       NoDup unique) /\
    total = fold_right Z.add 0%Z
              (map (fun kv => Py.len (snd kv)) page_verses).
Proof.
  split.
  - apply (proj1 (X29_main_saves_all_or_nothing
                    (fun page => if (page =? 7)%Z then None else Some []))).
    vm_compute. discriminate.
  - apply (proj2 (X29_main_saves_all_or_nothing
                    (fun page => Some [Some (1, page, 1, page)%Z]))).
    vm_compute. reflexivity.
Defined.
